(** * Poserspace: the network ingestion core of the two SDL displays

    A shallow embedding of the line protocol parser, the interpreter
    dispatch, the connection registry and the epoll loop of

      - [src/display/sdl/main.c++]            (the coordinate display, [Module Geo])
      - [src/display/sdl/sidescroll/main.c++] (the scrolling text display, [Module Sidescroll])

    Both programs share [handleInput], [acceptConnection], [acceptInput] and
    the shape of [main]; these are embedded once, generically in the line
    handler, and instantiated per program.  [handleLine], [handleHeader] and
    the interpreters differ and are embedded per program.

    Conventions.
      - [int] values are [Z]; [std::string] is [string]; [std::vector] is [list],
        indexed with stdpp's lookup, an index outside the vector being
        undefined behaviour ([Undefined OutOfRange]).
      - C++ exceptions and undefined behaviour are results of the [outcome]
        type; state is passed explicitly.
      - What the operating system and libc decide ([accept], [read],
        [epoll_wait], [gettimeofday], [rand], [atof]) is an input of the
        embedding. *)

From Equations Require Import Equations.
From Stdlib Require Import String Ascii ZArith Lia List QArith.
From stdpp Require Import base list gmap.
Import ListNotations.

Open Scope string_scope.
Open Scope Z_scope.

(** ** Outcomes of a C++ computation *)

(** The two exception types thrown by the programs: [throw "text"] throws a
    [const char *], [throw "invalid header: " + line] throws a [std::string]. *)
Inductive exception : Type :=
| CString (what : string)
| StdString (what : string).

(** Undefined behaviour the code can run into. *)
Inductive undefined : Type :=
| NullDereference   (* call through an empty [std::shared_ptr] *)
| OutOfRange        (* [operator[]] or an iterator outside its container *)
| DivisionByZero.   (* [%] with a zero right operand *)

Inductive outcome (A : Type) : Type :=
| Ok (a : A)
| Throw (e : exception)
| Undefined (u : undefined).
Arguments Ok {A} a.
Arguments Throw {A} e.
Arguments Undefined {A} u.

(** Sequencing: an exception or undefined behaviour ends the computation.
    Written with stdpp's monad notation [x ← m; k]. *)
#[global] Instance outcome_ret : MRet outcome := fun A a => Ok a.
#[global] Instance outcome_bind : MBind outcome := fun A B k m =>
  match m with
  | Ok a => k a
  | Throw e => Throw e
  | Undefined u => Undefined u
  end.

(** [v[i]] on a [std::vector]. *)
Definition at_index {A} (v : list A) (i : nat) : outcome A :=
  match v !! i with
  | Some a => Ok a
  | None => Undefined OutOfRange
  end.

(** ** std::string and boost::algorithm helpers *)

Definition LF : ascii := "010"%char.
Definition CR : ascii := "013"%char.
Definition TAB : ascii := "009"%char.
Definition COLON : ascii := ":"%char.

(** [std::find(s.begin(), s.end(), c)]: the offset of the first [c], or
    [None] for [s.end()]. *)
Fixpoint find (c : ascii) (s : string) : option nat :=
  match s with
  | EmptyString => None
  | String a s' => if Ascii.eqb a c then Some 0%nat else option_map S (find c s')
  end.

(** [std::string(s.begin() + i, s.begin() + j)]. *)
Definition range (i j : nat) (s : string) : string := substring i (j - i) s.

(** [std::string(s.begin() + i, s.end())]. *)
Definition suffix (i : nat) (s : string) : string := range i (String.length s) s.

(** [std::isspace] in the classic locale, as used by [boost::is_space]. *)
Definition is_space (a : ascii) : bool :=
  let n := nat_of_ascii a in
  ((9 <=? n) && (n <=? 13))%nat || (n =? 32)%nat.

(** [boost::algorithm::trim_left_copy]. *)
Fixpoint trim_left_copy (s : string) : string :=
  match s with
  | EmptyString => EmptyString
  | String a s' => if is_space a then trim_left_copy s' else s
  end.

(** [boost::algorithm::split(values, s, [](char c) { return c == sep; })]
    with the default [token_compress_off]: one token more than there are
    separators, so never an empty vector. *)
Fixpoint split (sep : ascii) (s : string) : list string :=
  match s with
  | EmptyString => [EmptyString]
  | String a s' =>
      if Ascii.eqb a sep then EmptyString :: split sep s'
      else match split sep s' with
           | t :: ts => String a t :: ts
           | [] => [String a EmptyString]
           end
  end.

(** ** Per-connection parser state *)

Inductive ParserState : Type := ACTION | HEADER | DATA.

(** [class ConnectionState], over the program's set [I] of interpreter
    classes; the [std::shared_ptr<DataInterpreter>] is [None] when empty. *)
Record ConnectionState (I : Type) : Type := mkConnectionState {
  fd : Z;
  buf : string;
  state : ParserState;
  interpreter : option I
}.
Arguments mkConnectionState {I}.
Arguments fd {I}.
Arguments buf {I}.
Arguments state {I}.
Arguments interpreter {I}.

(** [explicit ConnectionState(const int fd)]. *)
Definition ConnectionState_ctor {I} (fd : Z) : ConnectionState I :=
  {| fd := fd; buf := ""; state := ACTION; interpreter := None |}.

Definition set_buf {I} (c : ConnectionState I) (b : string) : ConnectionState I :=
  {| fd := fd c; buf := b; state := state c; interpreter := interpreter c |}.

Definition set_state {I} (c : ConnectionState I) (s : ParserState) : ConnectionState I :=
  {| fd := fd c; buf := buf c; state := s; interpreter := interpreter c |}.

Definition set_interpreter {I} (c : ConnectionState I) (i : option I) : ConnectionState I :=
  {| fd := fd c; buf := buf c; state := state c; interpreter := i |}.

(** Process-wide objects the parser writes: [std::cerr] (one entry per
    [<< std::endl]) and the program's shared downstream data [D]. *)
Record Globals (D : Type) : Type := mkGlobals {
  cerr : list string;
  shared : D
}.
Arguments mkGlobals {D}.
Arguments cerr {D}.
Arguments shared {D}.

Definition log {D} (msg : string) (g : Globals D) : Globals D :=
  {| cerr := cerr g ++ [msg]; shared := shared g |}.

Definition set_shared {D} (g : Globals D) (d : D) : Globals D :=
  {| cerr := cerr g; shared := d |}.

(** ** Line extraction: [ConnectionState::handleInput]

    The member function is the same in both programs; it is embedded over
    the program's [handleLine]. *)

Definition inspect {A} (a : A) : {b : A | a = b} := exist _ a eq_refl.

Section HandleInput.
Context {I D : Type}.
Variable handleLine :
  ConnectionState I -> string -> Globals D -> outcome (ConnectionState I * Globals D).

(** The end [e] of the line whose line feed is at offset [nl]:
    [e] starts at [nl] and steps back by one when the character before
    it is a carriage return.  With [nl] at [buf.begin()] the character
    read, the one at [e - 1], is outside the string. *)
Definition line_end (b : string) (nl : nat) : outcome nat :=
  match nl with
  | O => Undefined OutOfRange
  | S p =>
      match String.get p b with
      | Some a => Ok (if Ascii.eqb a CR then p else nl)
      | None => Undefined OutOfRange
      end
  end.

(** The [while(1)] loop of [handleInput].  [handleLine] does not touch
    [buf] (see [geo_handleLine_buf] and [side_handleLine_buf]), so the
    iterator [nl] taken before the call still points into it afterwards;
    every turn removes at least the line feed, which bounds the loop. *)
Equations? handleInput_loop (c : ConnectionState I) (g : Globals D) :
    outcome (ConnectionState I * Globals D) by wf (String.length (buf c)) lt :=
  handleInput_loop c g with inspect (find LF (buf c)) := {
    | exist _ None _ => Ok (c, g)
    | exist _ (Some nl) Hnl with line_end (buf c) nl := {
        | Undefined u => Undefined u
        | Throw x => Throw x
        | Ok e with handleLine c (range 0 e (buf c)) g := {
            | Undefined u => Undefined u
            | Throw x => Throw x
            | Ok (c', g') => handleInput_loop (set_buf c' (suffix (S nl) (buf c))) g' } } }.
Proof.
  simpl. clear - Hnl.
  assert (Hlt : (nl < String.length (buf c))%nat).
  { revert nl Hnl. generalize (buf c) as s.
    induction s as [|a s IH]; simpl; intros n H; [discriminate|].
    destruct (Ascii.eqb a LF); [injection H as <-; lia|].
    destruct (find LF s); simpl in H; [|discriminate].
    injection H as <-. specialize (IH _ eq_refl). lia. }
  assert (Hsub : forall s n m, (String.length (substring n m s) <= String.length s - n)%nat).
  { clear. induction s as [|a s IH]; intros [|n] [|m]; simpl; try lia.
    - specialize (IH 0%nat m). lia.
    - apply IH.
    - apply IH. }
  unfold suffix, range.
  specialize (Hsub (buf c) (S nl) (String.length (buf c) - S nl)%nat). lia.
Qed.

(** [void handleInput(const std::string &input)]. *)
Definition handleInput (c : ConnectionState I) (input : string) (g : Globals D) :
    outcome (ConnectionState I * Globals D) :=
  handleInput_loop (set_buf c (buf c ++ input)) g.
End HandleInput.

(** ** The coordinate display: [src/display/sdl/main.c++] *)

(** [const char *std::string::c_str()] as read by a C function: the
    characters before the first NUL. *)
Definition c_str (s : string) : string :=
  match find "000"%char s with
  | Some i => range 0 i s
  | None => s
  end.

Module Geo.

(** The subclasses of [DataInterpreter]. *)
Inductive DataInterpreter : Type := GeoInterpreter | TextInterpreter.

(** [struct GeoData], without the [SDL_Surface *earth] of the renderer;
    [double] is left abstract. *)
Record GeoData (double : Type) : Type := mkGeoData {
  targetLat : double;
  targetLon : double;
  currentLat : double;
  currentLon : double
}.
Arguments mkGeoData {double}.
Arguments targetLat {double}.
Arguments targetLon {double}.
Arguments currentLat {double}.
Arguments currentLon {double}.

Section Program.
Context {double : Type}.
(** libc's [atof]: total, it reports no error. *)
Variable atof : string -> double.

Definition set_targetLat (d : GeoData double) (v : double) : GeoData double :=
  {| targetLat := v; targetLon := targetLon d;
     currentLat := currentLat d; currentLon := currentLon d |}.

Definition set_targetLon (d : GeoData double) (v : double) : GeoData double :=
  {| targetLat := targetLat d; targetLon := v;
     currentLat := currentLat d; currentLon := currentLon d |}.

(** [GeoInterpreter::handleData]: one line on [std::cerr]. *)
Definition GeoInterpreter_handleData (data : list string)
    (g : Globals (GeoData double)) : outcome (Globals (GeoData double)) :=
  d0 ← at_index data 0;
  d1 ← at_index data 1;
  Ok (log ("Geo: " ++ d0 ++ "," ++ d1) g).

(** [TextInterpreter::handleData]: the empty body. *)
Definition TextInterpreter_handleData (data : list string)
    (g : Globals (GeoData double)) : outcome (Globals (GeoData double)) :=
  Ok g.

(** The virtual call [interpreter->handleData(values)]. *)
Definition handleData (i : option DataInterpreter) (values : list string)
    (g : Globals (GeoData double)) : outcome (Globals (GeoData double)) :=
  match i with
  | None => Undefined NullDereference
  | Some GeoInterpreter => GeoInterpreter_handleData values g
  | Some TextInterpreter => TextInterpreter_handleData values g
  end.

(** [ConnectionState::handleHeader]. *)
Definition handleHeader (c : ConnectionState DataInterpreter)
    (header value : string) (g : Globals (GeoData double)) :
    ConnectionState DataInterpreter * Globals (GeoData double) :=
  let g := log ("Header: " ++ header ++ " => " ++ value) g in
  if String.eqb header "Content-type" then
    let c := if String.eqb value "x-poserspace/geo"
             then set_interpreter c (Some GeoInterpreter) else c in
    let c := if String.eqb value "x-poserspace/text"
             then set_interpreter c (Some TextInterpreter) else c in
    (c, g)
  else (c, g).

(** [ConnectionState::handleLine]. *)
Definition handleLine (c : ConnectionState DataInterpreter) (line : string)
    (g : Globals (GeoData double)) :
    outcome (ConnectionState DataInterpreter * Globals (GeoData double)) :=
  match state c with
  | ACTION => Ok (set_state c HEADER, g)
  | HEADER =>
      if String.eqb line "" then Ok (set_state c DATA, g)
      else
        match find COLON line with
        | None => Throw (StdString ("invalid header: " ++ line))
        | Some colon =>
            let header := range 0 colon line in
            let headerValue := trim_left_copy (suffix (S colon) line) in
            Ok (handleHeader c header headerValue g)
        end
  | DATA =>
      let g := log line g in
      let values := split TAB line in
      g ← handleData (interpreter c) values g;
      v0 ← at_index values 0;
      let g := set_shared g (set_targetLat (shared g) (atof (c_str v0))) in
      v1 ← at_index values 1;
      let g := set_shared g (set_targetLon (shared g) (atof (c_str v1))) in
      Ok (c, g)
  end.
End Program.

End Geo.

(** ** The scrolling text display: [src/display/sdl/sidescroll/main.c++] *)

Module Sidescroll.

Definition WIDTH : Z := 1920.
Definition HEIGHT : Z := 1080.

(** A [TTF_Font *] returned by [TTF_OpenFont("8bitoperator.ttf", ptsize)]. *)
Inductive TTF_Font : Type := OpenFont (ptsize : Z).

(** An [SDL_Surface *] handed out by the renderer. *)
Inductive SDL_Surface : Type := Surface (id : Z).

(** [struct Line].  The [float] members only ever hold the integers
    assigned in [handleData], so they are kept as [Z]; a null pointer is
    [None]. *)
Record Line : Type := mkLine {
  font : option TTF_Font;
  x : Z; y : Z; w : Z; h : Z;
  content : string;
  surface : option SDL_Surface;
  col_r : Z; col_g : Z; col_b : Z
}.

(** The globals [lines] and [fonts], and libc's generator: the value of
    the [n]-th call of [rand()] and the number of calls made so far. *)
Record Scene : Type := mkScene {
  lines : list Line;
  fonts : list (option TTF_Font);
  rand_values : nat -> Z;
  rand_calls : nat
}.

(** The font table as [main] fills it: a null entry, then sizes 1 to 31. *)
Definition main_fonts : list (option TTF_Font) :=
  None :: map (fun i => Some (OpenFont (Z.of_nat i))) (seq 1 31).

(** [rand()]. *)
Definition rand (d : Scene) : Z * Scene :=
  (rand_values d (rand_calls d),
   {| lines := lines d; fonts := fonts d;
      rand_values := rand_values d; rand_calls := S (rand_calls d) |}).

(** [(rand() % m)? a: b]. *)
Definition rand_pick (m a b : Z) (d : Scene) : Z * Scene :=
  let (r, d) := rand d in
  (if Z.rem r m =? 0 then b else a, d).

(** [int maxsize(int lineCount)]. *)
Definition maxsize (lineCount : Z) (d : Scene) : Z * Scene :=
  if lineCount <? 20 then (28, d)
  else if lineCount <? 25 then rand_pick 10 24 28 d
  else if lineCount <? 30 then rand_pick 15 20 28 d
  else if lineCount <? 50 then rand_pick 20 16 24 d
  else if lineCount <? 80 then rand_pick 40 12 24 d
  else if lineCount <? 110 then rand_pick 50 8 24 d
  else if lineCount <? 200 then rand_pick 100 4 24 d
  else rand_pick lineCount 1 24 d.

(** The conversion of [lines.size()] to the [int] parameter of [maxsize]. *)
Definition to_int (n : Z) : Z := (n + 2 ^ 31) mod 2 ^ 32 - 2 ^ 31.

(** The order in which the two operands of [%] in
    [rand() % maxsize(lines.size())] are evaluated is left to the
    compiler. *)
Inductive EvalOrder : Type := LeftFirst | RightFirst.

(** The only subclass of [DataInterpreter]. *)
Inductive DataInterpreter : Type := TextInterpreter.

Section Program.
Variable order : EvalOrder.

(** [rand() % maxsize(lines.size())], both operands drawn in [order]. *)
Definition draw_size (d : Scene) : Z * Z * Scene :=
  let n := to_int (Z.of_nat (length (lines d))) in
  match order with
  | LeftFirst =>
      let (r, d) := rand d in
      let (m, d) := maxsize n d in
      (r, m, d)
  | RightFirst =>
      let (m, d) := maxsize n d in
      let (r, d) := rand d in
      (r, m, d)
  end.

(** [TextInterpreter::handleData].  The green channel is computed in
    [float] and truncated on assignment to [int]; every intermediate
    value is a multiple of 1/32 below 2^24, hence exact. *)
Definition TextInterpreter_handleData (line : list string)
    (g : Globals Scene) : outcome (Globals Scene) :=
  l0 ← at_index line 0;
  if String.eqb l0 "" then Ok g
  else
    let '(r, m, d) := draw_size (shared g) in
    l_h ← (if m =? 0 then Undefined DivisionByZero else Ok (Z.rem r m + 4));
    l_font ← (if l_h <? 0 then Undefined OutOfRange
              else at_index (fonts d) (Z.to_nat l_h));
    let (ry, d) := rand d in
    let l_y := Z.rem ry HEIGHT in
    let (rg, d) := rand d in
    let l_g := Z.quot (64 * 32 + 191 * l_h - 32 * Z.rem rg 32) 32 in
    let l := {| font := l_font; x := WIDTH; y := l_y; w := WIDTH * 2; h := l_h;
                content := l0; surface := None;
                col_r := 0; col_g := l_g; col_b := 0 |} in
    Ok (set_shared g {| lines := lines d ++ [l]; fonts := fonts d;
                        rand_values := rand_values d;
                        rand_calls := rand_calls d |}).

(** The virtual call [interpreter->handleData(values)]. *)
Definition handleData (i : option DataInterpreter) (values : list string)
    (g : Globals Scene) : outcome (Globals Scene) :=
  match i with
  | None => Undefined NullDereference
  | Some TextInterpreter => TextInterpreter_handleData values g
  end.

(** [ConnectionState::handleHeader]. *)
Definition handleHeader (c : ConnectionState DataInterpreter)
    (header value : string) (g : Globals Scene) :
    ConnectionState DataInterpreter * Globals Scene :=
  let g := log ("Header: " ++ header ++ " => " ++ value) g in
  if String.eqb header "Content-type" then
    let c := if String.eqb value "x-poserspace/text"
             then set_interpreter c (Some TextInterpreter) else c in
    (c, g)
  else (c, g).

(** [ConnectionState::handleLine]. *)
Definition handleLine (c : ConnectionState DataInterpreter) (line : string)
    (g : Globals Scene) :
    outcome (ConnectionState DataInterpreter * Globals Scene) :=
  match state c with
  | ACTION => Ok (set_state c HEADER, g)
  | HEADER =>
      if String.eqb line "" then Ok (set_state c DATA, g)
      else
        match find COLON line with
        | None => Throw (StdString ("invalid header: " ++ line))
        | Some colon =>
            let header := range 0 colon line in
            let headerValue := trim_left_copy (suffix (S colon) line) in
            Ok (handleHeader c header headerValue g)
        end
  | DATA =>
      let g := log line g in
      let values := split TAB line in
      g ← handleData (interpreter c) values g;
      Ok (c, g)
  end.
End Program.

End Sidescroll.

(** ** The operating system as the programs see it

    The descriptors the process holds open and the interest list of its one
    epoll instance.  The calls follow the Linux manual pages: a descriptor
    can be added to the interest list once, only a listed descriptor can be
    deleted from it, and closing a descriptor also drops it from the list. *)
Record Kernel : Type := mkKernel {
  open_fds : gset Z;
  interest : gset Z
}.

(** A successful [accept(2)] that returned [ret]. *)
Definition sys_accept (k : Kernel) (ret : Z) : Kernel :=
  {| open_fds := {[ret]} ∪ open_fds k; interest := interest k |}.

(** [epoll_ctl(poll, EPOLL_CTL_ADD, fd, &add) < 0] is [None]. *)
Definition epoll_ctl_add (k : Kernel) (fd : Z) : option Kernel :=
  if bool_decide (fd ∈ open_fds k) && negb (bool_decide (fd ∈ interest k))
  then Some {| open_fds := open_fds k; interest := {[fd]} ∪ interest k |}
  else None.

(** [epoll_ctl(poll, EPOLL_CTL_DEL, fd, 0) < 0] is [None]. *)
Definition epoll_ctl_del (k : Kernel) (fd : Z) : option Kernel :=
  if bool_decide (fd ∈ interest k)
  then Some {| open_fds := open_fds k; interest := interest k ∖ {[fd]} |}
  else None.

(** [close(fd)]. *)
Definition sys_close (k : Kernel) (fd : Z) : Kernel :=
  {| open_fds := open_fds k ∖ {[fd]}; interest := interest k ∖ {[fd]} |}.

(** ** Registry and event loop, shared by both programs *)

(** The process: the global [connections], the kernel objects behind the
    descriptors, and the globals of [Globals]. *)
Record Process (I D : Type) : Type := mkProcess {
  connections : list (ConnectionState I);
  kernel : Kernel;
  globals : Globals D
}.
Arguments mkProcess {I D}.
Arguments connections {I D}.
Arguments kernel {I D}.
Arguments globals {I D}.

(** What the kernel reports for one entry of [events] after [epoll_wait]:
    the ready descriptor, and the result of the one system call the program
    then makes on it: the return value of [accept] or [read], and for [read]
    the bytes left in [buffer]. *)
Record Event : Type := mkEvent {
  ev_fd : Z;
  ev_ret : Z;
  ev_buffer : string
}.

(** One turn of the [while(running)] loop as decided outside the program:
    the clock read by [now()] ([None] when [gettimeofday] fails), whether
    [SDL_PollEvent] delivered [SDL_QUIT] (sidescroll only), and the events
    returned by [epoll_wait] ([None] when it fails). *)
Record Wakeup : Type := mkWakeup {
  w_now : option Z;
  w_quit : bool;
  w_ready : option (list Event)
}.

Definition FRAMEDELAY : Z := 25000.

(** [connections[fd]] for an [int] index. *)
Definition slot (fd : Z) : option nat :=
  if fd <? 0 then None else Some (Z.to_nat fd).

Section Reactor.
Context {I D : Type}.
Variable handleLine :
  ConnectionState I -> string -> Globals D -> outcome (ConnectionState I * Globals D).
(** The presentation layer's [renderFrame]. *)
Variable renderFrame : Globals D -> outcome (Globals D).

(** [while(connections.size() < con) connections.push_back(ConnectionState(-1));] *)
Definition pad_connections (conns : list (ConnectionState I)) (con : nat) :
    list (ConnectionState I) :=
  conns ++ replicate (con - length conns) (ConnectionState_ctor (-1)).

(** [int acceptConnection(const int listeningSocket, const int poll)];
    [ret] is what [accept] returned. *)
Definition acceptConnection (ret : Z) (p : Process I D) : outcome (Z * Process I D) :=
  if ret <? 0 then Throw (CString "accept(2) failed")
  else
    let con := ret in
    match epoll_ctl_add (sys_accept (kernel p) ret) con with
    | None => Throw (CString "epoll_ctl(2) failed")
    | Some k =>
        let conns := pad_connections (connections p) (Z.to_nat con) in
        Ok (con, {| connections := conns ++ [ConnectionState_ctor con];
                    kernel := k; globals := globals p |})
    end.

(** [connections[fd] = c]. *)
Definition assign_slot (conns : list (ConnectionState I)) (fd : Z)
    (c : ConnectionState I) : outcome (list (ConnectionState I)) :=
  match slot fd with
  | Some i => if bool_decide (i < length conns)%nat then Ok (<[i := c]> conns)
              else Undefined OutOfRange
  | None => Undefined OutOfRange
  end.

(** [connections[fd]]. *)
Definition read_slot (conns : list (ConnectionState I)) (fd : Z) :
    outcome (ConnectionState I) :=
  match slot fd with
  | Some i => at_index conns i
  | None => Undefined OutOfRange
  end.

(** [void acceptInput(const int fd, const int poll)]; [len] is what [read]
    returned and [buffer] what it left in the array. *)
Definition acceptInput (fd : Z) (len : Z) (buffer : string) (p : Process I D) :
    outcome (Process I D) :=
  if len <? 0 then
    match epoll_ctl_del (kernel p) 0 with
    | None => Throw (CString "epoll_ctl(2) failed")
    | Some k =>
        let k := sys_close k fd in
        conns ← assign_slot (connections p) fd (ConnectionState_ctor (-1));
        Ok {| connections := conns; kernel := k; globals := globals p |}
    end
  else
    c ← read_slot (connections p) fd;
    '(c', g') ← handleInput handleLine c (range 0 (Z.to_nat len) buffer) (globals p);
    conns ← assign_slot (connections p) fd c';
    Ok {| connections := conns; kernel := kernel p; globals := g' |}.

(** The [for] loop over the ready events in [main]. *)
Fixpoint dispatch (serverSocket : Z) (events : list Event) (p : Process I D) :
    outcome (Process I D) :=
  match events with
  | [] => Ok p
  | ev :: rest =>
      p ← (if ev_fd ev =? serverSocket
           then '(_, p') ← acceptConnection (ev_ret ev) p; Ok p'
           else acceptInput (ev_fd ev) (ev_ret ev) (ev_buffer ev) p);
      dispatch serverSocket rest p
  end.

(** The body of the [while(running)] loop, after the SDL event poll;
    [nextFrameAt] is a [uint64_t]. *)
Definition iteration (serverSocket : Z) (wk : Wakeup) (st : Z * Process I D) :
    outcome (Z * Process I D) :=
  let (nextFrameAt, p) := st in
  t ← match w_now wk with
      | Some t => Ok t
      | None => Throw (CString "gettimeofday(2) failed")
      end;
  '(nextFrameAt, p) ←
      (if nextFrameAt <? t then
         g ← renderFrame (globals p);
         Ok ((t + FRAMEDELAY) mod 2 ^ 64,
             {| connections := connections p; kernel := kernel p; globals := g |})
       else Ok (nextFrameAt, p));
  events ← match w_ready wk with
           | Some events => Ok events
           | None => Throw (CString "epoll_wait(2) failed")
           end;
  p ← dispatch serverSocket events p;
  Ok (nextFrameAt, p).

(** The [while(running)] loop over the wakeups the process gets;
    [polls_quit] tells whether the program polls SDL for [SDL_QUIT]
    (sidescroll does, the coordinate display does not).  The result is
    the state when the loop is left or the wakeups are used up. *)
Fixpoint event_loop (polls_quit : bool) (serverSocket : Z) (wks : list Wakeup)
    (st : Z * Process I D) : outcome (Z * Process I D) :=
  match wks with
  | [] => Ok st
  | wk :: rest =>
      st ← iteration serverSocket wk st;
      if polls_quit && w_quit wk then Ok st
      else event_loop polls_quit serverSocket rest st
  end.

(** What the [catch] clauses of [main] make of the loop's end: a
    [std::string] is printed and [main] runs off its end, a
    [const char *] is printed and [main] returns 1.  Undefined behaviour
    has no exit status. *)
Definition main_status {A} (r : outcome A) : option Z :=
  match r with
  | Ok _ => Some 0
  | Throw (StdString _) => Some 0
  | Throw (CString _) => Some 1
  | Undefined _ => None
  end.
End Reactor.

(** The process as [main] leaves it when it enters the loop: the listening
    socket and the epoll descriptor open, the former in the interest list,
    and no connection yet. *)
Definition initial_process {I D} (serverSocket poll : Z) (g : Globals D) : Process I D :=
  {| connections := [];
     kernel := {| open_fds := {[serverSocket; poll]}; interest := {[serverSocket]} |};
     globals := g |}.

(** ** Feeding a connection read by read *)

(** The calls [handleInput(chunk)] that successive [read]s on one
    connection make, one per chunk. *)
Fixpoint feed {I D : Type}
    (handleLine : ConnectionState I -> string -> Globals D ->
                  outcome (ConnectionState I * Globals D))
    (chunks : list string) (c : ConnectionState I) (g : Globals D) :
    outcome (ConnectionState I * Globals D) :=
  match chunks with
  | [] => Ok (c, g)
  | chunk :: rest =>
      '(c', g') ← handleInput handleLine c chunk g;
      feed handleLine rest c' g'
  end.

(** The byte stream the chunks make up. *)
Definition join (chunks : list string) : string := fold_right String.append "" chunks.

(** An observer in the place of [handleLine]: it appends every line it is
    handed to a list and leaves the connection alone. *)
Definition record_line (c : ConnectionState unit) (line : string)
    (g : Globals (list string)) : outcome (ConnectionState unit * Globals (list string)) :=
  Ok (c, set_shared g (shared g ++ [line])%list).

(** A line handler that neither reads nor writes the receive buffer. *)
Definition buf_independent {I D : Type}
    (handleLine : ConnectionState I -> string -> Globals D ->
                  outcome (ConnectionState I * Globals D)) : Prop :=
  forall c b line g,
    handleLine (set_buf c b) line g =
    ('(c', g') ← handleLine c line g; Ok (set_buf c' b, g')).

(** The calls of [handleLine] that [handleInput] makes for a sequence of
    complete lines. *)
Fixpoint handleLines {I D : Type}
    (handleLine : ConnectionState I -> string -> Globals D ->
                  outcome (ConnectionState I * Globals D))
    (ls : list string) (c : ConnectionState I) (g : Globals D) :
    outcome (ConnectionState I * Globals D) :=
  match ls with
  | [] => Ok (c, g)
  | line :: rest =>
      '(c', g') ← handleLine c line g;
      handleLines handleLine rest c' g'
  end.

(** ** Constants used in examples *)

Definition crlf : string := String CR (String LF "").
Definition tab : string := String TAB "".

(** A stand-in for [atof] on plain decimal literals, with exact rational
    results: optional white space and sign, digits, an optional fraction;
    anything else ends the number, and no digits at all give 0.  It is used
    to run the embedding on examples; the properties below hold for every
    [atof]. *)
Definition digit (a : ascii) : option Z :=
  let n := Z.of_nat (nat_of_ascii a) in
  if (48 <=? n) && (n <=? 57) then Some (n - 48) else None.

Fixpoint digits (s : string) (acc : Z) (count : nat) : Z * nat * string :=
  match s with
  | EmptyString => (acc, count, s)
  | String a s' =>
      match digit a with
      | Some v => digits s' (10 * acc + v) (S count)
      | None => (acc, count, s)
      end
  end.

Definition atof_decimal (s : string) : Q :=
  let s := trim_left_copy s in
  let '(negative, s) :=
    match s with
    | String "-" r => (true, r)
    | String "+" r => (false, r)
    | _ => (false, s)
    end in
  let '(int_part, _, s) := digits s 0 0 in
  let '(mantissa, scale) :=
    match s with
    | String "." r => let '(m, k, _) := digits r int_part 0 in (m, k)
    | _ => (int_part, 0%nat)
    end in
  Qred (Qmake (if negative then - mantissa else mantissa) (Pos.pow 10 (Pos.of_nat scale))).

(** The values [Sidescroll.maxsize] can return for a line count, read off
    its branches: the usual one and the rare one. *)
Definition maxsize_choices (lineCount : Z) : list Z :=
  if lineCount <? 20 then [28]
  else if lineCount <? 25 then [24; 28]
  else if lineCount <? 30 then [20; 28]
  else if lineCount <? 50 then [16; 24]
  else if lineCount <? 80 then [12; 24]
  else if lineCount <? 110 then [8; 24]
  else if lineCount <? 200 then [4; 24]
  else [1; 24].

(** libc's promise about [rand()]: every value is between 0 and [RAND_MAX]. *)
Definition RAND_MAX : Z := 2147483647.

Definition rand_in_range (d : Sidescroll.Scene) : Prop :=
  forall n, 0 <= Sidescroll.rand_values d n <= RAND_MAX.

(** A scene for examples: no item on display, the font table of [main], and
    a generator whose [n]-th value is 1000 plus the smaller of [n] and 50. *)
Definition example_scene : Globals Sidescroll.Scene :=
  {| cerr := [];
     shared := {| Sidescroll.lines := [];
                  Sidescroll.fonts := Sidescroll.main_fonts;
                  Sidescroll.rand_values := fun n => 1000 + Z.of_nat (Nat.min n 50);
                  Sidescroll.rand_calls := 0 |} |}.

(** ** The parser's protocol, as predicates on a line handler *)

(** What one call of a line handler may do, by the state it is called in. *)
Definition parser_step {I D : Type}
    (handleLine : ConnectionState I -> string -> Globals D ->
                  outcome (ConnectionState I * Globals D)) : Prop :=
  forall c line g c' g',
    handleLine c line g = Ok (c', g') ->
    match state c with
    | ACTION =>
        state c' = HEADER /\ interpreter c' = interpreter c /\ shared g' = shared g
    | HEADER =>
        shared g' = shared g /\
        (if String.eqb line "" then state c' = DATA /\ interpreter c' = interpreter c
         else state c' = HEADER)
    | DATA =>
        state c' = DATA /\ interpreter c' = interpreter c
    end.

(** The invariant of the three-state parser over sequences of lines. *)
Definition parser_invariant {I D : Type}
    (handleLine : ConnectionState I -> string -> Globals D ->
                  outcome (ConnectionState I * Globals D)) : Prop :=
  (* the binding changes in the HEADER state only *)
  (forall c line g c' g',
      state c <> HEADER ->
      handleLine c line g = Ok (c', g') ->
      interpreter c' = interpreter c) /\
  (* the blank line ends the header block and keeps the binding *)
  (forall c g,
      state c = HEADER ->
      handleLine c "" g = Ok (set_state c DATA, g)) /\
  (* from then on state and binding are fixed *)
  (forall ls c g c' g',
      state c = DATA ->
      handleLines handleLine ls c g = Ok (c', g') ->
      state c' = DATA /\ interpreter c' = interpreter c) /\
  (* DATA is reached only through an action line, header lines that are
     not blank, and a blank line *)
  (forall f ls g c' g',
      handleLines handleLine ls (ConnectionState_ctor f) g = Ok (c', g') ->
      state c' = DATA ->
      exists action headers data,
        ls = action :: (headers ++ "" :: data)%list /\
        Forall (fun l => l <> "") headers) /\
  (* before that, nothing reaches the downstream data *)
  (forall c line g c' g',
      state c <> DATA ->
      handleLine c line g = Ok (c', g') ->
      shared g' = shared g).

(** A header line without a colon ends the process: [handleLine] throws
    the [std::string], and when the line arrives, terminated by CR LF, as
    the first bytes read on a connection in the HEADER state with an empty
    buffer, the exception leaves [handleInput], [acceptInput], the loop
    over the ready events and the main loop; neither the other events of
    that wakeup nor any later wakeup is served. *)
Definition protocol_error_fatal {I D : Type}
    (handleLine : ConnectionState I -> string -> Globals D ->
                  outcome (ConnectionState I * Globals D)) : Prop :=
  (forall c line g,
      state c = HEADER -> line <> "" -> find COLON line = None ->
      handleLine c line g = Throw (StdString ("invalid header: " ++ line))) /\
  (forall (renderFrame : Globals D -> outcome (Globals D)) polls_quit serverSocket
          p f c line more events wakeups nextFrameAt t quit,
      (forall g, exists g', renderFrame g = Ok g') ->
      f <> serverSocket ->
      0 <= f ->
      connections p !! Z.to_nat f = Some c ->
      state c = HEADER -> buf c = "" ->
      line <> "" -> find COLON line = None -> find LF line = None ->
      event_loop handleLine renderFrame polls_quit serverSocket
        ({| w_now := Some t; w_quit := quit;
            w_ready := Some ({| ev_fd := f;
                                ev_ret := Z.of_nat (String.length (line ++ crlf ++ more));
                                ev_buffer := line ++ crlf ++ more |} :: events) |}
           :: wakeups)
        (nextFrameAt, p)
      = Throw (StdString ("invalid header: " ++ line))).

(** A process for examples: listening socket 3, epoll descriptor 4, and
    one connection accepted on descriptor 5. *)
Definition one_connection {I D : Type} (g : Globals D) : Process I D :=
  {| connections := replicate 5 (ConnectionState_ctor (-1)) ++ [ConnectionState_ctor 5];
     kernel := {| open_fds := {[3; 4; 5]}; interest := {[3; 5]} |};
     globals := g |}.

(** What a call of [rand] or [maxsize] leaves untouched. *)
Definition same_scene (d d' : Sidescroll.Scene) : Prop :=
  Sidescroll.lines d' = Sidescroll.lines d /\
  Sidescroll.fonts d' = Sidescroll.fonts d /\
  Sidescroll.rand_values d' = Sidescroll.rand_values d.

(** [one_connection] after the connection has sent its action line. *)
Definition in_headers {I D : Type} (g : Globals D) : Process I D :=
  {| connections := replicate 5 (ConnectionState_ctor (-1))
                    ++ [{| fd := 5; buf := ""; state := HEADER; interpreter := None |}];
     kernel := {| open_fds := {[3; 4; 5]}; interest := {[3; 5]} |};
     globals := g |}.

(** ** Vocabulary for further properties *)

Definition lf : string := String LF "".

(** Every character of [s] is white space for [trim_left_copy]. *)
Fixpoint all_space (s : string) : bool :=
  match s with
  | EmptyString => true
  | String a s' => is_space a && all_space s'
  end.

Definition starts_with_space (s : string) : bool :=
  match s with
  | EmptyString => false
  | String a _ => is_space a
  end.

(** The last character of [s] is a carriage return. *)
Definition ends_with_CR (s : string) : bool :=
  match String.get (String.length s - 1) s with
  | Some a => Ascii.eqb a CR
  | None => false
  end.

(** The bytes of a sequence of lines, each ended by CR LF. *)
Fixpoint wire (ls : list string) : string :=
  match ls with
  | [] => ""
  | l :: rest => l ++ crlf ++ wire rest
  end.

(** The text of a line before its first tab, the whole line without one. *)
Definition first_field (line : string) : string :=
  match find TAB line with
  | Some i => range 0 i line
  | None => line
  end.

(** ** Start-up: [now], [prepareSocket], [prepareEpoll] and [main] *)

(** [uint64_t now()]: [ret] is what [gettimeofday] returned, [tv_sec] and
    [tv_usec] what it stored; [None] stands for the exception
    "gettimeofday(2) failed".  The [w_now] of a wakeup is such a result. *)
Definition now (ret tv_sec tv_usec : Z) : option Z :=
  if ret <? 0 then None
  else Some ((tv_sec mod 2 ^ 64 * 1000000 + tv_usec) mod 2 ^ 64).

(** What the kernel returns to the calls of [prepareSocket] and
    [prepareEpoll]. *)
Record SetupCalls : Type := mkSetupCalls {
  socket_ret : Z;
  setsockopt_ret : Z;
  bind_ret : Z;
  listen_ret : Z;
  epoll_create_ret : Z
}.

(** [int prepareSocket()]. *)
Definition prepareSocket (s : SetupCalls) (k : Kernel) : outcome (Z * Kernel) :=
  let serverSocket := socket_ret s in
  if serverSocket <? 0 then Throw (CString "socket(2) failed")
  else
    let k := {| open_fds := {[serverSocket]} ∪ open_fds k; interest := interest k |} in
    if setsockopt_ret s <? 0 then Throw (CString "setsockopt(2) failed")
    else if bind_ret s <? 0 then Throw (CString "bind(2) failed")
    else if listen_ret s <? 0 then Throw (CString "listen(2) failed")
    else Ok (serverSocket, k).

(** [int prepareEpoll(const int listeningSocket)]. *)
Definition prepareEpoll (s : SetupCalls) (listeningSocket : Z) (k : Kernel) :
    outcome (Z * Kernel) :=
  let poll := epoll_create_ret s in
  if poll <? 0 then Throw (CString "epoll_create(2) failed")
  else
    let k := {| open_fds := {[poll]} ∪ open_fds k; interest := interest k |} in
    match epoll_ctl_add k listeningSocket with
    | None => Throw (CString "epoll_ctl(2) failed")
    | Some k => Ok (poll, k)
    end.

(** What [main] meets before its loop: the results of [SDL_Init] and
    [TTF_Init], whether [TTF_OpenFont] succeeds for a size, the set-up
    calls, and the first reading of the clock. *)
Record Boot : Type := mkBoot {
  sdl_init_ret : Z;
  ttf_init_ret : Z;
  font_opened : Z -> bool;
  setup : SetupCalls;
  boot_now : option Z
}.

(** The loop of [main] that fills [fonts]: every size is pushed, and a
    null result throws right after. *)
Fixpoint open_fonts (opened : Z -> bool) (sizes : list nat)
    (fonts : list (option Sidescroll.TTF_Font)) :
    outcome (list (option Sidescroll.TTF_Font)) :=
  match sizes with
  | [] => Ok fonts
  | i :: rest =>
      if opened (Z.of_nat i)
      then open_fonts opened rest (fonts ++ [Some (Sidescroll.OpenFont (Z.of_nat i))])
      else Throw (CString "TTF_OpenFont failed")
  end.

(** The part of both [main]s from [prepareSocket] to the end of the loop. *)
Definition serve {I D : Type}
    (handleLine : ConnectionState I -> string -> Globals D ->
                  outcome (ConnectionState I * Globals D))
    (renderFrame : Globals D -> outcome (Globals D)) (polls_quit : bool)
    (b : Boot) (g : Globals D) (wakeups : list Wakeup) :
    outcome (Z * Process I D) :=
  '(serverSocket, k) ← prepareSocket (setup b) {| open_fds := ∅; interest := ∅ |};
  '(poll, k) ← prepareEpoll (setup b) serverSocket k;
  t ← match boot_now b with
      | Some t => Ok t
      | None => Throw (CString "gettimeofday(2) failed")
      end;
  event_loop handleLine renderFrame polls_quit serverSocket wakeups
    ((t + FRAMEDELAY) mod 2 ^ 64,
     {| connections := []; kernel := k; globals := g |}).

(** The [try] block of [main] in the text display; [rand_values] is what
    libc's generator is going to return. *)
Definition sidescroll_main_block (order : Sidescroll.EvalOrder)
    (renderFrame : Globals Sidescroll.Scene -> outcome (Globals Sidescroll.Scene))
    (b : Boot) (rand_values : nat -> Z) (wakeups : list Wakeup) :
    outcome (Z * Process Sidescroll.DataInterpreter Sidescroll.Scene) :=
  if negb (sdl_init_ret b =? 0) then Throw (CString "SDL init failed")
  else if ttf_init_ret b <? 0 then Throw (CString "TTF init failed")
  else
    fonts ← open_fonts (font_opened b) (seq 1 31) [None];
    serve (Sidescroll.handleLine order) renderFrame true b
      {| cerr := [];
         shared := {| Sidescroll.lines := []; Sidescroll.fonts := fonts;
                      Sidescroll.rand_values := rand_values;
                      Sidescroll.rand_calls := 0 |} |}
      wakeups.

(** The [try] block of [main] in the coordinate display; [zero] is the
    [double] 0.0 and [lat0], [lon0] are the two literals the target starts
    at. *)
Definition geo_main_block {double : Type} (atof : string -> double)
    (renderFrame : Globals (Geo.GeoData double) -> outcome (Globals (Geo.GeoData double)))
    (zero lat0 lon0 : double) (b : Boot) (wakeups : list Wakeup) :
    outcome (Z * Process Geo.DataInterpreter (Geo.GeoData double)) :=
  if negb (sdl_init_ret b =? 0) then Throw (CString "SDL init failed")
  else
    serve (Geo.handleLine atof) renderFrame false b
      {| cerr := [];
         shared := {| Geo.targetLat := lat0; Geo.targetLon := lon0;
                      Geo.currentLat := zero; Geo.currentLon := zero |} |}
      wakeups.

(** [main]'s return value, through its two [catch] clauses. *)
Definition sidescroll_main (order : Sidescroll.EvalOrder)
    (renderFrame : Globals Sidescroll.Scene -> outcome (Globals Sidescroll.Scene))
    (b : Boot) (rand_values : nat -> Z) (wakeups : list Wakeup) : option Z :=
  main_status (sidescroll_main_block order renderFrame b rand_values wakeups).

Definition geo_main {double : Type} (atof : string -> double)
    (renderFrame : Globals (Geo.GeoData double) -> outcome (Globals (Geo.GeoData double)))
    (zero lat0 lon0 : double) (b : Boot) (wakeups : list Wakeup) : option Z :=
  main_status (geo_main_block atof renderFrame zero lat0 lon0 b wakeups).

(** Every set-up call of the text display succeeded. *)
Definition boot_ok (b : Boot) : bool :=
  (sdl_init_ret b =? 0) && (0 <=? ttf_init_ret b)
  && forallb (fun i => font_opened b (Z.of_nat i)) (seq 1 31)
  && (0 <=? socket_ret (setup b)) && (0 <=? setsockopt_ret (setup b))
  && (0 <=? bind_ret (setup b)) && (0 <=? listen_ret (setup b))
  && (0 <=? epoll_create_ret (setup b))
  && match boot_now b with Some _ => true | None => false end.

(** The clock of every wakeup was read, did not run backwards from
    [t], and leaves room for one frame delay below 2^64. *)
Fixpoint clocks_from (t : Z) (wakeups : list Wakeup) : Prop :=
  match wakeups with
  | [] => True
  | wk :: rest =>
      exists t', w_now wk = Some t' /\ t <= t' < 2 ^ 64 - FRAMEDELAY /\
                 clocks_from t' rest
  end.

(** The clock of the last wakeup, [t] when there is none. *)
Fixpoint last_clock (t : Z) (wakeups : list Wakeup) : Z :=
  match wakeups with
  | [] => t
  | wk :: rest => last_clock (match w_now wk with Some t' => t' | None => t end) rest
  end.

(** A boot in which every call succeeds: listening socket 3, epoll
    descriptor 4, clock at 1000. *)
Definition example_boot : Boot :=
  {| sdl_init_ret := 0; ttf_init_ret := 0; font_opened := fun _ => true;
     setup := {| socket_ret := 3; setsockopt_ret := 0; bind_ret := 0;
                 listen_ret := 0; epoll_create_ret := 4 |};
     boot_now := Some 1000 |}.

(** * Properties *)

(** ** Strings *)

Lemma find_lt c s i : find c s = Some i -> (i < String.length s)%nat.
Proof.
  revert i; induction s as [|a s IH]; simpl; intros i H; [discriminate|].
  destruct (Ascii.eqb a c); [injection H as <-; lia|].
  destruct (find c s); simpl in H; [|discriminate].
  injection H as <-. specialize (IH _ eq_refl). lia.
Qed.

Lemma string_app_cons a (s t : string) : String a s ++ t = String a (s ++ t).
Proof. reflexivity. Qed.

Lemma substring_length_le n m s :
  (String.length (substring n m s) <= String.length s - n)%nat.
Proof.
  revert n m; induction s as [|a s IH]; intros [|n] [|m]; simpl; try lia.
  - specialize (IH 0%nat m). lia.
  - apply IH.
  - apply IH.
Qed.

Lemma suffix_shorter nl s : (nl < String.length s)%nat ->
  (String.length (suffix (S nl) s) < String.length s)%nat.
Proof.
  intros H. unfold suffix, range.
  pose proof (substring_length_le (S nl) (String.length s - S nl) s). lia.
Qed.

Lemma find_app_found c s t i : find c s = Some i -> find c (s ++ t) = Some i.
Proof.
  revert i; induction s as [|a s IH]; simpl; intros i H; [discriminate|].
  rewrite ?string_app_cons; simpl.
  destruct (Ascii.eqb a c); [exact H|].
  destruct (find c s) as [j|]; simpl in H; [|discriminate].
  rewrite (IH j eq_refl). exact H.
Qed.

Lemma get_app_l s t i : (i < String.length s)%nat -> String.get i (s ++ t) = String.get i s.
Proof.
  revert i; induction s as [|a s IH]; simpl; intros i H; [lia|].
  rewrite ?string_app_cons.
  destruct i as [|i]; [reflexivity|]. simpl. apply IH. lia.
Qed.

Lemma substring_app_l s t n m :
  (n + m <= String.length s)%nat -> substring n m (s ++ t) = substring n m s.
Proof.
  revert n m; induction s as [|a s IH]; simpl; intros n m H.
  - assert (n = 0%nat) as -> by lia. assert (m = 0%nat) as -> by lia.
    destruct t; reflexivity.
  - rewrite ?string_app_cons. destruct n as [|n].
    + destruct m as [|m]; [reflexivity|]. simpl. f_equal. apply IH. simpl. lia.
    + simpl. apply IH. lia.
Qed.

Lemma substring_all s : substring 0 (String.length s) s = s.
Proof. induction s as [|a s IH]; simpl; [reflexivity | now rewrite IH]. Qed.

Lemma suffix_app s t n :
  (n <= String.length s)%nat -> suffix n (s ++ t) = suffix n s ++ t.
Proof.
  unfold suffix, range.
  revert n; induction s as [|a s IH]; intros n H.
  - simpl in H. assert (n = 0%nat) as -> by lia. rewrite Nat.sub_0_r.
    now rewrite substring_all.
  - destruct n as [|n].
    + rewrite !Nat.sub_0_r, !substring_all. reflexivity.
    + rewrite ?string_app_cons. cbn [String.length substring Nat.sub]. apply IH.
      simpl in H. lia.
Qed.

Lemma string_app_assoc (s t u : string) : (s ++ t) ++ u = s ++ t ++ u.
Proof. induction s as [|a s IH]; [reflexivity | rewrite !string_app_cons; f_equal; exact IH]. Qed.

Lemma string_app_empty_r (s : string) : s ++ "" = s.
Proof. induction s as [|a s IH]; [reflexivity | rewrite !string_app_cons; f_equal; exact IH]. Qed.

Lemma set_buf_set_buf {I} (c : ConnectionState I) b b' : set_buf (set_buf c b) b' = set_buf c b'.
Proof. reflexivity. Qed.

Lemma set_buf_same {I} (c : ConnectionState I) : set_buf c (buf c) = c.
Proof. destruct c; reflexivity. Qed.

Lemma bind_Ok_r {A} (m : outcome A) : (m ≫= Ok) = m.
Proof. destruct m; reflexivity. Qed.

Lemma bind_assoc {A B C} (m : outcome A) (f : A -> outcome B) (k : B -> outcome C) :
  ((m ≫= f) ≫= k) = (m ≫= fun a => f a ≫= k).
Proof. destruct m; reflexivity. Qed.

Lemma line_end_app b t nl :
  (nl < String.length b)%nat -> line_end (b ++ t) nl = line_end b nl.
Proof.
  intros H. destruct nl as [|p]; [reflexivity|].
  unfold line_end. rewrite get_app_l by lia. reflexivity.
Qed.

Lemma line_end_le b nl e : line_end b nl = Ok e -> (e <= nl)%nat.
Proof.
  destruct nl as [|p]; simpl; [discriminate|].
  destruct (String.get p b); [|discriminate].
  destruct (Ascii.eqb a CR); intros [= <-]; lia.
Qed.

Section HandleInputFacts.
Context {I D : Type}.
Variable handleLine :
  ConnectionState I -> string -> Globals D -> outcome (ConnectionState I * Globals D).

(** One turn of the loop. *)
Lemma handleInput_loop_step c g :
  handleInput_loop handleLine c g =
  match find LF (buf c) with
  | None => Ok (c, g)
  | Some nl =>
      e ← line_end (buf c) nl;
      '(c', g') ← handleLine c (range 0 e (buf c)) g;
      handleInput_loop handleLine (set_buf c' (suffix (S nl) (buf c))) g'
  end.
Proof.
  funelim (handleInput_loop handleLine c g); clear Heqcall;
    repeat match goal with
           | E : find _ _ = _ |- _ => rewrite E
           | E : line_end _ _ = _ |- _ => rewrite E; cbn [mbind outcome_bind]
           | E : handleLine _ _ _ = _ |- _ => rewrite E; cbn [mbind outcome_bind]
           end; reflexivity.
Qed.

Hypothesis handleLine_buf : buf_independent handleLine.

(** Bytes appended behind the buffer do not change what the loop does
    with the lines already complete in it. *)
Lemma handleInput_loop_app t : forall n c g,
  (String.length (buf c) < n)%nat ->
  handleInput_loop handleLine (set_buf c (buf c ++ t)) g =
  ('(c', g') ← handleInput_loop handleLine c g;
   handleInput_loop handleLine (set_buf c' (buf c' ++ t)) g').
Proof.
  induction n as [|n IH]; intros c g Hn; [lia|].
  rewrite (handleInput_loop_step c g).
  destruct (find LF (buf c)) as [nl|] eqn:Hnl; [|reflexivity].
  rewrite (handleInput_loop_step (set_buf c (buf c ++ t)) g).
  cbn [buf set_buf].
  pose proof (find_lt _ _ _ Hnl) as Hlt.
  rewrite (find_app_found _ _ t _ Hnl), line_end_app by exact Hlt.
  destruct (line_end (buf c) nl) as [e| |] eqn:He; try reflexivity.
  cbn [mbind outcome_bind].
  pose proof (line_end_le _ _ _ He) as Hle.
  unfold range at 1. rewrite substring_app_l by lia. fold (range 0 e (buf c)).
  rewrite handleLine_buf.
  destruct (handleLine c (range 0 e (buf c)) g) as [[c' g']| |]; try reflexivity.
  cbn [mbind outcome_bind]. rewrite set_buf_set_buf.
  rewrite suffix_app by lia.
  specialize (IH (set_buf c' (suffix (S nl) (buf c))) g').
  cbn [buf set_buf] in IH. rewrite set_buf_set_buf in IH.
  apply IH.
  pose proof (suffix_shorter nl (buf c) Hlt). lia.
Qed.

(** Two reads or one: [handleInput] cannot tell. *)
Lemma handleInput_app c a b g :
  handleInput handleLine c (a ++ b) g =
  ('(c', g') ← handleInput handleLine c a g; handleInput handleLine c' b g').
Proof.
  unfold handleInput.
  rewrite <- string_app_assoc.
  pose proof (handleInput_loop_app b (S (String.length (buf c ++ a)))
                (set_buf c (buf c ++ a)) g) as H.
  cbn [buf set_buf] in H. rewrite set_buf_set_buf in H.
  rewrite H by lia. reflexivity.
Qed.

Lemma feed_join a rest : forall c g,
  feed handleLine (a :: rest) c g = handleInput handleLine c (join (a :: rest)) g.
Proof.
  revert a; induction rest as [|b rest IH]; intros a c g.
  - cbn [feed join fold_right]. rewrite string_app_empty_r.
    destruct (handleInput handleLine c a g) as [[c' g']| |]; reflexivity.
  - change (join (a :: b :: rest)) with (a ++ join (b :: rest)).
    rewrite handleInput_app. cbn [feed].
    destruct (handleInput handleLine c a g) as [[c' g']| |]; try reflexivity.
    cbn [mbind outcome_bind]. apply (IH b c' g').
Qed.
End HandleInputFacts.
(** ** The line handlers leave the receive buffer alone *)

Ltac case_outcome :=
  repeat match goal with
         | |- context [mbind _ ?m] =>
             let E := fresh "E" in
             destruct m as [?| |] eqn:E; cbn [mbind outcome_bind]; try reflexivity
         end.

Lemma geo_handleLine_buf {double} (atof : string -> double) :
  buf_independent (Geo.handleLine atof).
Proof.
  intros [f bf st it] b line g. unfold Geo.handleLine; cbn [state set_buf interpreter].
  destruct st; cbn [mbind outcome_bind]; try reflexivity.
  - destruct (String.eqb line ""); [reflexivity|].
    destruct (find COLON line); [|reflexivity].
    unfold Geo.handleHeader.
    repeat match goal with |- context [if ?t then _ else _] => destruct t end;
      reflexivity.
  - case_outcome.
Qed.

Lemma side_handleLine_buf (order : Sidescroll.EvalOrder) :
  buf_independent (Sidescroll.handleLine order).
Proof.
  intros [f bf st it] b line g. unfold Sidescroll.handleLine; cbn [state set_buf interpreter].
  destruct st; cbn [mbind outcome_bind]; try reflexivity.
  - destruct (String.eqb line ""); [reflexivity|].
    destruct (find COLON line); [|reflexivity].
    unfold Sidescroll.handleHeader.
    repeat match goal with |- context [if ?t then _ else _] => destruct t end;
      reflexivity.
  - case_outcome.
Qed.

Lemma record_line_buf : buf_independent record_line.
Proof. intros c b line g. reflexivity. Qed.

(** An empty read changes nothing on a connection whose buffer holds no
    complete line. *)
Lemma handleInput_empty {I D : Type}
    (handleLine : ConnectionState I -> string -> Globals D ->
                  outcome (ConnectionState I * Globals D)) c g :
  find LF (buf c) = None -> handleInput handleLine c "" g = Ok (c, g).
Proof.
  intros H. unfold handleInput. rewrite string_app_empty_r, set_buf_same.
  rewrite handleInput_loop_step, H. reflexivity.
Qed.

(** ** Read boundaries *)

(** C3: for a connection in any state and any byte stream cut into one or
    more chunks, handing the chunks to [handleInput] one read at a time
    ends in the same result as handing it the whole stream at once: the
    same connection state with the same buffered remainder, the same
    globals, or the same exception or fault.  This holds for both
    programs, and for the observer [record_line], whose result is the
    sequence of lines [handleInput] recognized: line recognition, the
    stripping of a carriage return and the removal of the terminator do not
    depend on where the reads cut the stream. *)
Theorem handleInput_read_boundaries :
  (forall double (atof : string -> double) chunk chunks c g,
      feed (Geo.handleLine atof) (chunk :: chunks) c g =
      handleInput (Geo.handleLine atof) c (join (chunk :: chunks)) g) /\
  (forall order chunk chunks c g,
      feed (Sidescroll.handleLine order) (chunk :: chunks) c g =
      handleInput (Sidescroll.handleLine order) c (join (chunk :: chunks)) g) /\
  (forall chunk chunks c g,
      feed record_line (chunk :: chunks) c g =
      handleInput record_line c (join (chunk :: chunks)) g).
Proof.
  split; [|split]; intros.
  - apply feed_join, geo_handleLine_buf.
  - apply feed_join, side_handleLine_buf.
  - apply feed_join, record_line_buf.
Qed.

(** ** Data records *)

Lemma split_nonempty sep s : split sep s <> [].
Proof.
  destruct s as [|a s]; simpl; [discriminate|].
  destruct (Ascii.eqb a sep); [discriminate|].
  destruct (split sep s); discriminate.
Qed.

(** C1: a data line reaching a connection that has no interpreter bound is
    not dropped: [handleLine] calls [handleData] through the empty
    [shared_ptr].  This holds in both programs, for every line, and is
    what the byte stream of a client that sends no [Content-type] header
    runs into. *)
Theorem data_line_without_interpreter :
  (forall double (atof : string -> double) f b line g,
      Geo.handleLine atof
        {| fd := f; buf := b; state := DATA; interpreter := None |} line g
      = Undefined NullDereference) /\
  (forall order f b line g,
      Sidescroll.handleLine order
        {| fd := f; buf := b; state := DATA; interpreter := None |} line g
      = Undefined NullDereference) /\
  (forall double (atof : string -> double) f g,
      handleInput (Geo.handleLine atof) (ConnectionState_ctor f)
        ("ACTION" ++ crlf ++ "Content-type: text/plain" ++ crlf ++ crlf ++ "hello" ++ crlf) g
      = Undefined NullDereference) /\
  (forall order f g,
      handleInput (Sidescroll.handleLine order) (ConnectionState_ctor f)
        ("ACTION" ++ crlf ++ crlf ++ "hello" ++ crlf) g
      = Undefined NullDereference).
Proof.
  repeat split; intros; reflexivity.
Qed.

(** C4: a connection bound to the Geo interpreter that handles a data
    record with at least two tab-separated fields overwrites the target
    latitude with [atof] of the first field and the target longitude with
    [atof] of the second, whatever the two texts are: [atof] reports no
    error, so neither does the record.  The current coordinates are left
    alone, the connection is unchanged, and [std::cerr] gets the line and
    the interpreter's message. *)
Theorem geo_record_sets_target {double} (atof : string -> double)
    (c : ConnectionState Geo.DataInterpreter) (line : string)
    (g : Globals (Geo.GeoData double)) (v0 v1 : string) (more : list string) :
  state c = DATA ->
  interpreter c = Some Geo.GeoInterpreter ->
  split TAB line = v0 :: v1 :: more ->
  exists g',
    Geo.handleLine atof c line g = Ok (c, g') /\
    Geo.targetLat (shared g') = atof (c_str v0) /\
    Geo.targetLon (shared g') = atof (c_str v1) /\
    Geo.currentLat (shared g') = Geo.currentLat (shared g) /\
    Geo.currentLon (shared g') = Geo.currentLon (shared g) /\
    cerr g' = (cerr g ++ [line; ("Geo: " ++ v0 ++ "," ++ v1)%string])%list.
Proof.
  intros Hs Hi Hv. unfold Geo.handleLine. rewrite Hs, Hi, Hv.
  eexists. split; [reflexivity|]. cbn.
  repeat split. now rewrite <- app_assoc.
Qed.

Lemma geo_record_sets_target_witness :
  exists g',
    Geo.handleLine atof_decimal
      {| fd := 5; buf := ""; state := DATA; interpreter := Some Geo.GeoInterpreter |}
      ("12.5" ++ tab ++ "-3.25")
      {| cerr := []; shared := Geo.mkGeoData 0%Q 0%Q 0%Q 0%Q |}
    = Ok ({| fd := 5; buf := ""; state := DATA;
             interpreter := Some Geo.GeoInterpreter |}, g') /\
    Geo.targetLat (shared g') = (25 # 2)%Q /\
    Geo.targetLon (shared g') = (-13 # 4)%Q.
Proof.
  destruct (geo_record_sets_target atof_decimal
              {| fd := 5; buf := ""; state := DATA;
                 interpreter := Some Geo.GeoInterpreter |}
              ("12.5" ++ tab ++ "-3.25")
              {| cerr := []; shared := Geo.mkGeoData 0%Q 0%Q 0%Q 0%Q |}
              "12.5" "-3.25" [] eq_refl eq_refl eq_refl)
    as (g' & H & Hlat & Hlon & _).
  exists g'. split; [exact H|]. split; [exact Hlat | exact Hlon].
Defined.

(** C6: in the coordinate display, a data record on a connection bound to
    the Text interpreter does change the shared target coordinates: the
    assignment of [geo.targetLat] and [geo.targetLon] follows the dispatch
    in [handleLine] for every interpreter.  Here the record is the two
    fields 1 and 2. *)
Theorem text_record_moves_target :
  forall double (atof : string -> double) f b (g : Globals (Geo.GeoData double)),
    Geo.handleLine atof
      {| fd := f; buf := b; state := DATA; interpreter := Some Geo.TextInterpreter |}
      ("1" ++ tab ++ "2") g
    = Ok ({| fd := f; buf := b; state := DATA;
             interpreter := Some Geo.TextInterpreter |},
          {| cerr := (cerr g ++ [("1" ++ tab ++ "2")%string])%list;
             shared := {| Geo.targetLat := atof "1"; Geo.targetLon := atof "2";
                          Geo.currentLat := Geo.currentLat (shared g);
                          Geo.currentLon := Geo.currentLon (shared g) |} |}).
Proof. reflexivity. Qed.

(** A text record of one field, on the same connection, reads a second
    field that is not there. *)
Lemma text_record_one_field :
  forall double (atof : string -> double) f b (g : Globals (Geo.GeoData double)),
    Geo.handleLine atof
      {| fd := f; buf := b; state := DATA; interpreter := Some Geo.TextInterpreter |}
      "hello" g
    = Undefined OutOfRange.
Proof. reflexivity. Qed.

(** ** The size policy of the text display *)

Lemma same_scene_refl d : same_scene d d.
Proof. repeat split. Qed.

Lemma same_scene_trans d1 d2 d3 : same_scene d1 d2 -> same_scene d2 d3 -> same_scene d1 d3.
Proof. intros (?&?&?) (?&?&?). repeat split; congruence. Qed.

Lemma rand_spec d : rand_in_range d ->
  0 <= fst (Sidescroll.rand d) <= RAND_MAX /\
  same_scene d (snd (Sidescroll.rand d)) /\ rand_in_range (snd (Sidescroll.rand d)).
Proof. intros H. split; [apply H|]. split; [repeat split | exact H]. Qed.

Lemma rand_pick_spec m a b d :
  (fst (Sidescroll.rand_pick m a b d) = a \/ fst (Sidescroll.rand_pick m a b d) = b) /\
  same_scene d (snd (Sidescroll.rand_pick m a b d)) /\
  (rand_in_range d -> rand_in_range (snd (Sidescroll.rand_pick m a b d))).
Proof.
  unfold Sidescroll.rand_pick. cbn.
  split; [destruct (_ =? 0); auto|]. split; [repeat split | auto].
Qed.

Lemma maxsize_spec n d :
  In (fst (Sidescroll.maxsize n d)) (maxsize_choices n) /\
  same_scene d (snd (Sidescroll.maxsize n d)) /\
  (rand_in_range d -> rand_in_range (snd (Sidescroll.maxsize n d))).
Proof.
  unfold Sidescroll.maxsize, maxsize_choices.
  repeat match goal with
         | |- context [if ?t then _ else _] => destruct t
         end;
    try (split; [left; reflexivity | split; [apply same_scene_refl | auto]]);
    match goal with
    | |- context [Sidescroll.rand_pick ?m ?a ?b ?d] =>
        destruct (rand_pick_spec m a b d) as ([->| ->] & ? & ?)
    end; (split; [cbn; auto | split; assumption]).
Qed.

Lemma maxsize_choices_range n m : In m (maxsize_choices n) ->
  In m [1; 4; 8; 12; 16; 20; 24; 28].
Proof.
  unfold maxsize_choices.
  repeat match goal with
         | |- context [if ?t then _ else _] => destruct t
         end; cbn; intuition.
Qed.

Lemma choices_bounds m : In m [1; 4; 8; 12; 16; 20; 24; 28] -> 1 <= m <= 28.
Proof. cbn. intuition lia. Qed.

Lemma draw_size_spec order d r m d' :
  rand_in_range d ->
  Sidescroll.draw_size order d = (r, m, d') ->
  0 <= r /\
  In m (maxsize_choices (Sidescroll.to_int (Z.of_nat (length (Sidescroll.lines d))))) /\
  same_scene d d' /\ rand_in_range d'.
Proof.
  intros Hr. unfold Sidescroll.draw_size.
  set (n := Sidescroll.to_int _).
  destruct order.
  - destruct (Sidescroll.rand d) as [r1 d1] eqn:E1.
    destruct (Sidescroll.maxsize n d1) as [m1 d2] eqn:E2.
    intros [= <- <- <-].
    pose proof (rand_spec d Hr) as (H1 & H2 & H3). rewrite E1 in *. cbn in *.
    pose proof (maxsize_spec n d1) as (H4 & H5 & H6). rewrite E2 in *. cbn in *.
    split; [lia|]. split; [exact H4|].
    split; [eapply same_scene_trans; eassumption | auto].
  - destruct (Sidescroll.maxsize n d) as [m1 d1] eqn:E1.
    destruct (Sidescroll.rand d1) as [r1 d2] eqn:E2.
    intros [= <- <- <-].
    pose proof (maxsize_spec n d) as (H4 & H5 & H6). rewrite E1 in *. cbn in *.
    pose proof (rand_spec d1 (H6 Hr)) as (H1 & H2 & H3). rewrite E2 in *. cbn in *.
    split; [lia|]. split; [exact H4|].
    split; [eapply same_scene_trans; eassumption | auto].
Qed.

Lemma main_fonts_lookup k : 1 <= k <= 31 ->
  Sidescroll.main_fonts !! Z.to_nat k = Some (Some (Sidescroll.OpenFont k)).
Proof.
  intros H. rewrite <- (Z2Nat.id k) at 2 by lia.
  assert (Hn : (1 <= Z.to_nat k <= 31)%nat) by lia.
  generalize dependent (Z.to_nat k). clear. intros n Hn.
  do 32 (destruct n as [|n]; [first [lia | reflexivity]|]). lia.
Qed.

(** ** Text records *)

(** What [TextInterpreter::handleData] does with a record whose first
    field is not empty. *)
Lemma text_record_item order first rest (g : Globals Sidescroll.Scene) :
  first <> "" ->
  rand_in_range (shared g) ->
  Sidescroll.fonts (shared g) = Sidescroll.main_fonts ->
  exists m l d',
    Sidescroll.TextInterpreter_handleData order (first :: rest) g = Ok (set_shared g d') /\
    Sidescroll.lines d' = (Sidescroll.lines (shared g) ++ [l])%list /\
    Sidescroll.fonts d' = Sidescroll.fonts (shared g) /\
    In m (maxsize_choices
            (Sidescroll.to_int (Z.of_nat (length (Sidescroll.lines (shared g)))))) /\
    4 <= Sidescroll.h l < 4 + m /\
    Sidescroll.content l = first /\
    Sidescroll.font l = Some (Sidescroll.OpenFont (Sidescroll.h l)).
Proof.
  intros Hne Hr Hf.
  unfold Sidescroll.TextInterpreter_handleData.
  cbn [at_index lookup list_lookup mbind outcome_bind].
  destruct (String.eqb_spec first "") as [->|_]; [contradiction|].
  destruct (Sidescroll.draw_size order (shared g)) as [[r m] d] eqn:Ed.
  destruct (draw_size_spec _ _ _ _ _ Hr Ed) as (Hr0 & Hm & (Hl & Hfo & Hv) & Hr').
  pose proof (choices_bounds m (maxsize_choices_range _ _ Hm)) as Hb.
  destruct (Z.eqb_spec m 0) as [->|_]; [lia|].
  cbn [mbind outcome_bind].
  pose proof (Z.rem_bound_pos r m Hr0 ltac:(lia)) as Hrem.
  destruct (Z.ltb_spec (Z.rem r m + 4) 0) as [?|_]; [lia|].
  rewrite Hfo, Hf. unfold at_index.
  rewrite main_fonts_lookup by lia. cbn [mbind outcome_bind].
  cbn -[Z.rem Z.quot Z.mul Z.add Z.sub].
  eexists m, _, _. split; [reflexivity|]. cbn -[Z.rem Z.quot Z.mul Z.add Z.sub].
  rewrite Hl, Hfo.
  repeat split; cbn [Sidescroll.h Sidescroll.content Sidescroll.font];
    try assumption; try reflexivity; lia.
Qed.

(** C7: a record whose first field is empty leaves everything as it was,
    the list of display items included.  A record whose first field is not
    empty appends exactly one item to the list, with that field as its
    text and a height of at least 4 and less than 4 plus one of the values
    the size policy has for the number of items on display; this needs
    [rand()] to keep libc's promise and the font table to be the one [main]
    built. *)
Theorem text_record_display_item order (first : string) (rest : list string)
    (g : Globals Sidescroll.Scene) :
  rand_in_range (shared g) ->
  Sidescroll.fonts (shared g) = Sidescroll.main_fonts ->
  (first = "" ->
     Sidescroll.TextInterpreter_handleData order (first :: rest) g = Ok g) /\
  (first <> "" ->
     exists g' l m,
       Sidescroll.TextInterpreter_handleData order (first :: rest) g = Ok g' /\
       Sidescroll.lines (shared g') = (Sidescroll.lines (shared g) ++ [l])%list /\
       Sidescroll.content l = first /\
       In m (maxsize_choices
               (Sidescroll.to_int (Z.of_nat (length (Sidescroll.lines (shared g)))))) /\
       4 <= Sidescroll.h l < 4 + m).
Proof.
  intros Hr Hf. split.
  - intros ->. reflexivity.
  - intros Hne.
    destruct (text_record_item order first rest g Hne Hr Hf)
      as (m & l & d' & H & Hl & _ & Hm & Hh & Hc & _).
    exists (set_shared g d'), l, m. repeat split; assumption || apply Hh.
Qed.

Lemma text_record_display_item_witness :
  rand_in_range (shared example_scene) /\
  Sidescroll.fonts (shared example_scene) = Sidescroll.main_fonts /\
  ("hello" = "" ->
     Sidescroll.TextInterpreter_handleData Sidescroll.LeftFirst ["hello"; "x"] example_scene
     = Ok example_scene) /\
  ("hello" <> "" ->
     exists g' l m,
       Sidescroll.TextInterpreter_handleData Sidescroll.LeftFirst ["hello"; "x"] example_scene
       = Ok g' /\
       Sidescroll.lines (shared g') = (Sidescroll.lines (shared example_scene) ++ [l])%list /\
       Sidescroll.content l = "hello" /\
       In m (maxsize_choices
               (Sidescroll.to_int
                  (Z.of_nat (length (Sidescroll.lines (shared example_scene)))))) /\
       4 <= Sidescroll.h l < 4 + m).
Proof.
  assert (Hr : rand_in_range (shared example_scene)).
  { intros n. unfold RAND_MAX. simpl. lia. }
  split; [exact Hr|]. split; [reflexivity|].
  apply (text_record_display_item Sidescroll.LeftFirst "hello" ["x"] example_scene Hr eq_refl).
Defined.

(** C10: whatever the line count and whatever [rand()] returns,
    [maxsize] returns one of 1, 4, 8, 12, 16, 20, 24, 28, hence a value
    from 1 to 28.  So, with [rand()] keeping libc's promise and the
    32-entry font table of [main], the item that a text record with a
    non-empty first field appends has a height from 4 to 31, and the font
    looked up at that index is inside the table and is the font opened at
    that size, not the null entry at index 0. *)
Theorem maxsize_keeps_font_lookup_in_bounds :
  (forall n d,
      In (fst (Sidescroll.maxsize n d)) [1; 4; 8; 12; 16; 20; 24; 28] /\
      1 <= fst (Sidescroll.maxsize n d) <= 28) /\
  length Sidescroll.main_fonts = 32%nat /\
  (forall order first rest (g : Globals Sidescroll.Scene),
      first <> "" ->
      rand_in_range (shared g) ->
      Sidescroll.fonts (shared g) = Sidescroll.main_fonts ->
      exists g' l,
        Sidescroll.TextInterpreter_handleData order (first :: rest) g = Ok g' /\
        Sidescroll.lines (shared g') = (Sidescroll.lines (shared g) ++ [l])%list /\
        4 <= Sidescroll.h l <= 31 /\
        (Z.to_nat (Sidescroll.h l) < length (Sidescroll.fonts (shared g)))%nat /\
        Sidescroll.fonts (shared g) !! Z.to_nat (Sidescroll.h l)
          = Some (Sidescroll.font l) /\
        Sidescroll.font l = Some (Sidescroll.OpenFont (Sidescroll.h l))).
Proof.
  split; [|split; [reflexivity|]].
  - intros n d. destruct (maxsize_spec n d) as (H & _).
    apply maxsize_choices_range in H. split; [exact H | now apply choices_bounds].
  - intros order first rest g Hne Hr Hf.
    destruct (text_record_item order first rest g Hne Hr Hf)
      as (m & l & d' & H & Hl & _ & Hm & Hh & _ & Hfont).
    pose proof (choices_bounds m (maxsize_choices_range _ _ Hm)) as Hb.
    exists (set_shared g d'), l.
    split; [exact H|]. split; [exact Hl|]. split; [lia|].
    rewrite Hf. split; [change (length Sidescroll.main_fonts) with 32%nat; lia|].
    rewrite Hfont. split; [apply main_fonts_lookup; lia | reflexivity].
Qed.

Lemma maxsize_keeps_font_lookup_in_bounds_witness :
  "hello" <> "" /\
  rand_in_range (shared example_scene) /\
  Sidescroll.fonts (shared example_scene) = Sidescroll.main_fonts /\
  exists g' l,
    Sidescroll.TextInterpreter_handleData Sidescroll.RightFirst ["hello"] example_scene
    = Ok g' /\
    Sidescroll.lines (shared g') = (Sidescroll.lines (shared example_scene) ++ [l])%list /\
    4 <= Sidescroll.h l <= 31 /\
    (Z.to_nat (Sidescroll.h l) < length (Sidescroll.fonts (shared example_scene)))%nat /\
    Sidescroll.fonts (shared example_scene) !! Z.to_nat (Sidescroll.h l)
      = Some (Sidescroll.font l) /\
    Sidescroll.font l = Some (Sidescroll.OpenFont (Sidescroll.h l)).
Proof.
  assert (Hne : "hello" <> "") by discriminate.
  assert (Hr : rand_in_range (shared example_scene)).
  { intros n. unfold RAND_MAX. simpl. lia. }
  split; [exact Hne|]. split; [exact Hr|]. split; [reflexivity|].
  apply (proj2 (proj2 maxsize_keeps_font_lookup_in_bounds)
           Sidescroll.RightFirst "hello" [] example_scene Hne Hr eq_refl).
Defined.

(** ** The parser state machine *)

Section ParserProtocol.
Context {I D : Type}.
Variable handleLine :
  ConnectionState I -> string -> Globals D -> outcome (ConnectionState I * Globals D).
Hypothesis Hstep : parser_step handleLine.
Hypothesis Hblank : forall c g,
  state c = HEADER -> handleLine c "" g = Ok (set_state c DATA, g).

Lemma handleLines_cons line ls c g c2 g2 :
  handleLines handleLine (line :: ls) c g = Ok (c2, g2) ->
  exists c1 g1, handleLine c line g = Ok (c1, g1) /\
                handleLines handleLine ls c1 g1 = Ok (c2, g2).
Proof.
  cbn [handleLines].
  destruct (handleLine c line g) as [[c1 g1]| |]; cbn; try discriminate.
  intros H. exists c1, g1. split; [reflexivity | exact H].
Qed.

Lemma handleLines_in_data ls : forall c g c' g',
  state c = DATA ->
  handleLines handleLine ls c g = Ok (c', g') ->
  state c' = DATA /\ interpreter c' = interpreter c.
Proof.
  induction ls as [|line ls IH]; intros c g c' g' Hs H.
  - injection H as <- <-. split; [exact Hs | reflexivity].
  - apply handleLines_cons in H as (c1 & g1 & H1 & H2).
    pose proof (Hstep _ _ _ _ _ H1) as Hc. rewrite Hs in Hc.
    destruct Hc as [Hs1 Hi1].
    destruct (IH _ _ _ _ Hs1 H2) as [Hs2 Hi2].
    split; [exact Hs2 | congruence].
Qed.

Lemma handleLines_from_header ls : forall c g c' g',
  state c = HEADER ->
  handleLines handleLine ls c g = Ok (c', g') ->
  state c' = DATA ->
  exists headers data,
    ls = (headers ++ "" :: data)%list /\ Forall (fun l => l <> "") headers.
Proof.
  induction ls as [|line ls IH]; intros c g c' g' Hs H Hd.
  - injection H as <- <-. congruence.
  - apply handleLines_cons in H as (c1 & g1 & H1 & H2).
    pose proof (Hstep _ _ _ _ _ H1) as Hc. rewrite Hs in Hc.
    destruct Hc as [_ Hc].
    destruct (String.eqb_spec line "") as [->|Hne].
    + exists [], ls. split; [reflexivity | constructor].
    + destruct (IH _ _ _ _ Hc H2 Hd) as (hs & ds & -> & Hall).
      exists (line :: hs), ds. split; [reflexivity|].
      constructor; assumption.
Qed.

Lemma parser_invariant_of_step : parser_invariant handleLine.
Proof.
  repeat split.
  - intros c line g c' g' Hs H. pose proof (Hstep _ _ _ _ _ H) as Hc.
    destruct (state c); [tauto | congruence | tauto].
  - exact Hblank.
  - eapply handleLines_in_data; eassumption.
  - eapply handleLines_in_data; eassumption.
  - intros f ls g c' g' H Hd.
    destruct ls as [|action ls]; [injection H as <- <-; discriminate|].
    apply handleLines_cons in H as (c1 & g1 & H1 & H2).
    pose proof (Hstep _ _ _ _ _ H1) as (Hs1 & _).
    destruct (handleLines_from_header _ _ _ _ _ Hs1 H2 Hd) as (hs & ds & -> & Hall).
    exists action, hs, ds. split; [reflexivity | exact Hall].
  - intros c line g c' g' Hs H. pose proof (Hstep _ _ _ _ _ H) as Hc.
    destruct (state c); [tauto | tauto | congruence].
Qed.
End ParserProtocol.

Lemma geo_parser_step {double} (atof : string -> double) :
  parser_step (Geo.handleLine atof).
Proof.
  intros [f b st it] line g c' g'. unfold Geo.handleLine. cbn [state interpreter].
  destruct st.
  - intros [= <- <-]. repeat split.
  - destruct (String.eqb line "").
    + intros [= <- <-]. repeat split.
    + destruct (find COLON line); [|discriminate].
      unfold Geo.handleHeader.
      repeat match goal with |- context [if ?t then _ else _] => destruct t end;
        intros [= <- <-]; repeat split.
  - destruct (Geo.handleData it (split TAB line) (log line g)); cbn; try discriminate.
    destruct (at_index (split TAB line) 0); cbn; try discriminate.
    destruct (at_index (split TAB line) 1); cbn; try discriminate.
    intros [= <- <-]. repeat split.
Qed.

Lemma side_parser_step order : parser_step (Sidescroll.handleLine order).
Proof.
  intros [f b st it] line g c' g'. unfold Sidescroll.handleLine. cbn [state interpreter].
  destruct st.
  - intros [= <- <-]. repeat split.
  - destruct (String.eqb line "").
    + intros [= <- <-]. repeat split.
    + destruct (find COLON line); [|discriminate].
      unfold Sidescroll.handleHeader.
      repeat match goal with |- context [if ?t then _ else _] => destruct t end;
        intros [= <- <-]; repeat split.
  - destruct (Sidescroll.handleData order it (split TAB line) (log line g));
      cbn; try discriminate.
    intros [= <- <-]. repeat split.
Qed.

(** C9: in both programs the parser keeps its invariant over every
    sequence of lines.  A connection has one optional interpreter; a call
    of [handleLine] outside the HEADER state leaves the binding as it is;
    the blank line moves HEADER to DATA with the binding kept, and from
    DATA on state and binding stay fixed whatever lines follow; a
    connection that starts as [ConnectionState(fd)] is in DATA only after
    an action line, header lines that are not blank and a blank line have
    been consumed; and no call outside DATA touches the downstream data. *)
Theorem parser_state_machine_invariant :
  (forall double (atof : string -> double), parser_invariant (Geo.handleLine atof)) /\
  (forall order, parser_invariant (Sidescroll.handleLine order)).
Proof.
  split; intros.
  - apply parser_invariant_of_step; [apply geo_parser_step|].
    intros c g Hs. unfold Geo.handleLine. now rewrite Hs.
  - apply parser_invariant_of_step; [apply side_parser_step|].
    intros c g Hs. unfold Sidescroll.handleLine. now rewrite Hs.
Qed.

Lemma parser_state_machine_invariant_witness :
  handleLines (Sidescroll.handleLine Sidescroll.LeftFirst)
    ["ACTION"; "Content-type: x-poserspace/text"; ""]
    (ConnectionState_ctor 5) example_scene
  = Ok ({| fd := 5; buf := ""; state := DATA;
           interpreter := Some Sidescroll.TextInterpreter |},
        log "Header: Content-type => x-poserspace/text" example_scene) /\
  exists action headers data,
    ["ACTION"; "Content-type: x-poserspace/text"; ""]
    = action :: (headers ++ "" :: data)%list /\
    Forall (fun l => l <> "") headers.
Proof.
  split; [reflexivity|].
  apply (proj1 (proj2 (proj2 (proj2
           (proj2 parser_state_machine_invariant Sidescroll.LeftFirst))))
           5 ["ACTION"; "Content-type: x-poserspace/text"; ""] example_scene
           {| fd := 5; buf := ""; state := DATA;
              interpreter := Some Sidescroll.TextInterpreter |}
           (log "Header: Content-type => x-poserspace/text" example_scene)
           eq_refl eq_refl).
Defined.

(** ** Protocol errors *)

Lemma find_app_missing c s t :
  find c s = None ->
  find c (s ++ t) = option_map (Nat.add (String.length s)) (find c t).
Proof.
  induction s as [|a s IH]; intros H.
  - change ("" ++ t) with t. destruct (find c t); reflexivity.
  - rewrite string_app_cons. cbn in *.
    destruct (Ascii.eqb a c); [discriminate|].
    destruct (find c s); [discriminate|].
    rewrite IH by reflexivity. destruct (find c t); reflexivity.
Qed.

Lemma get_app_r s t : String.get (String.length s) (s ++ t) = String.get 0 t.
Proof.
  induction s as [|a s IH]; [reflexivity|].
  rewrite string_app_cons. cbn. exact IH.
Qed.

Lemma range_prefix s t : range 0 (String.length s) (s ++ t) = s.
Proof.
  unfold range. rewrite Nat.sub_0_r, substring_app_l by lia. apply substring_all.
Qed.

Lemma string_length_app (s t : string) :
  String.length (s ++ t) = (String.length s + String.length t)%nat.
Proof.
  induction s as [|a s IH]; [reflexivity|].
  rewrite string_app_cons. cbn. now rewrite IH.
Qed.

Lemma suffix_app_r s t : suffix (String.length s) (s ++ t) = t.
Proof.
  unfold suffix, range. rewrite string_length_app.
  replace (String.length s + String.length t - String.length s)%nat
    with (String.length t) by lia.
  induction s as [|a s IH]; [apply substring_all|].
  rewrite string_app_cons. cbn. exact IH.
Qed.

Section Propagation.
Context {I D : Type}.
Variable handleLine :
  ConnectionState I -> string -> Globals D -> outcome (ConnectionState I * Globals D).

(** The first line of the buffer is handed to [handleLine] unchanged when
    it ends in CR LF. *)
Lemma handleInput_first_line c line more g :
  buf c = "" -> find LF line = None ->
  handleInput handleLine c (line ++ crlf ++ more) g =
  ('(c', g') ← handleLine (set_buf c (line ++ crlf ++ more)) line g;
   handleInput_loop handleLine (set_buf c' more) g').
Proof.
  intros Hb Hl. unfold handleInput. rewrite Hb.
  change ("" ++ line ++ crlf ++ more) with (line ++ crlf ++ more).
  rewrite handleInput_loop_step. cbn [buf set_buf].
  rewrite (find_app_missing _ _ _ Hl).
  change (find LF (crlf ++ more)) with (Some 1%nat). cbn [option_map].
  replace (String.length line + 1)%nat with (S (String.length line)) by lia.
  cbn [line_end]. rewrite get_app_r.
  change (String.get 0 (crlf ++ more)) with (Some CR).
  cbn [mbind outcome_bind]. rewrite Ascii.eqb_refl.
  rewrite range_prefix.
  destruct (handleLine _ line g) as [[c' g']| |]; try reflexivity.
  cbn [mbind outcome_bind]. do 2 f_equal.
  rewrite <- string_app_assoc.
  replace (S (S (String.length line))) with (String.length (line ++ crlf)).
  - apply suffix_app_r.
  - rewrite string_length_app. cbn. lia.
Qed.

Lemma acceptInput_throws f len buffer p c x :
  0 <= f -> 0 <= len ->
  connections p !! Z.to_nat f = Some c ->
  handleInput handleLine c (range 0 (Z.to_nat len) buffer) (globals p) = Throw x ->
  acceptInput handleLine f len buffer p = Throw x.
Proof.
  intros Hf Hlen Hc H. unfold acceptInput.
  destruct (Z.ltb_spec len 0); [lia|].
  unfold read_slot, slot. destruct (Z.ltb_spec f 0); [lia|].
  unfold at_index. rewrite Hc. cbn [mbind outcome_bind]. rewrite H. reflexivity.
Qed.

Lemma dispatch_throws serverSocket ev events p x :
  ev_fd ev <> serverSocket ->
  acceptInput handleLine (ev_fd ev) (ev_ret ev) (ev_buffer ev) p = Throw x ->
  dispatch handleLine serverSocket (ev :: events) p = Throw x.
Proof.
  intros Hne H. cbn [dispatch].
  destruct (Z.eqb_spec (ev_fd ev) serverSocket); [contradiction|].
  rewrite H. reflexivity.
Qed.

Lemma event_loop_throws (renderFrame : Globals D -> outcome (Globals D))
    polls_quit serverSocket t quit events wakeups nextFrameAt p x :
  (forall g, exists g', renderFrame g = Ok g') ->
  (forall p', connections p' = connections p ->
              dispatch handleLine serverSocket events p' = Throw x) ->
  event_loop handleLine renderFrame polls_quit serverSocket
    ({| w_now := Some t; w_quit := quit; w_ready := Some events |} :: wakeups)
    (nextFrameAt, p)
  = Throw x.
Proof.
  intros Hrender Hd. cbn [event_loop iteration w_now w_ready mbind outcome_bind].
  destruct (nextFrameAt <? t).
  - destruct (Hrender (globals p)) as [g' ->]. cbn [mbind outcome_bind].
    rewrite Hd by reflexivity. reflexivity.
  - cbn [mbind outcome_bind]. rewrite Hd by reflexivity. reflexivity.
Qed.

Hypothesis Hthrow : forall c line g,
  state c = HEADER -> line <> "" -> find COLON line = None ->
  handleLine c line g = Throw (StdString ("invalid header: " ++ line)).

Lemma protocol_error_fatal_of_throw : protocol_error_fatal handleLine.
Proof.
  split; [exact Hthrow|].
  intros render polls_quit serverSocket p f c line more events wakeups
         nextFrameAt t quit Hrender Hne Hf Hc Hs Hb Hl Hcolon Hlf.
  apply event_loop_throws; [exact Hrender|].
  intros p' Hp'. apply dispatch_throws; [exact Hne|]. cbn [ev_fd ev_ret ev_buffer].
  apply acceptInput_throws with (c := c); [exact Hf | lia | now rewrite Hp' |].
  rewrite Nat2Z.id. unfold range at 1. rewrite Nat.sub_0_r, substring_all.
  rewrite handleInput_first_line by assumption.
  rewrite Hthrow; [reflexivity | exact Hs | exact Hl | exact Hcolon].
Qed.
End Propagation.

(** C8: in both programs a non-empty line without a colon, handled in the
    HEADER state, makes [handleLine] throw the [std::string]
    "invalid header: " followed by the line; [protocol_error_fatal] further
    says that the exception leaves [handleInput], [acceptInput], the loop
    over the ready events and the main loop, so that no other connection
    is served afterwards. *)
Theorem header_without_colon_is_fatal :
  (forall double (atof : string -> double), protocol_error_fatal (Geo.handleLine atof)) /\
  (forall order, protocol_error_fatal (Sidescroll.handleLine order)).
Proof.
  split; intros.
  - apply protocol_error_fatal_of_throw.
    intros c line g Hs Hl Hc. unfold Geo.handleLine. rewrite Hs, Hc.
    destruct (String.eqb_spec line ""); [contradiction | reflexivity].
  - apply protocol_error_fatal_of_throw.
    intros c line g Hs Hl Hc. unfold Sidescroll.handleLine. rewrite Hs, Hc.
    destruct (String.eqb_spec line ""); [contradiction | reflexivity].
Qed.

Lemma header_without_colon_is_fatal_witness :
  event_loop (Sidescroll.handleLine Sidescroll.LeftFirst) (fun g => Ok g) true 3
    [ {| w_now := Some 100; w_quit := false;
         w_ready := Some [ {| ev_fd := 5;
                              ev_ret := Z.of_nat (String.length
                                          ("garbage" ++ crlf ++ "Content-type: x" ++ crlf));
                              ev_buffer := "garbage" ++ crlf ++ "Content-type: x" ++ crlf |};
                           {| ev_fd := 3; ev_ret := 6; ev_buffer := "" |} ] |};
      {| w_now := Some 200; w_quit := false; w_ready := Some [] |} ]
    (0, in_headers example_scene)
  = Throw (StdString "invalid header: garbage").
Proof.
  apply (proj2 (proj2 header_without_colon_is_fatal Sidescroll.LeftFirst)
           (fun g => Ok g) true 3 (in_headers example_scene) 5
           {| fd := 5; buf := ""; state := HEADER; interpreter := None |}
           "garbage" ("Content-type: x" ++ crlf)
           [ {| ev_fd := 3; ev_ret := 6; ev_buffer := "" |} ]
           [ {| w_now := Some 200; w_quit := false; w_ready := Some [] |} ]
           0 100 false).
  - intros g. exists g. reflexivity.
  - lia.
  - lia.
  - reflexivity.
  - reflexivity.
  - reflexivity.
  - discriminate.
  - reflexivity.
  - reflexivity.
Defined.

(** ** The connection registry *)

Lemma length_pad_connections {I} (conns : list (ConnectionState I)) con :
  length (pad_connections conns con) = Nat.max (length conns) con.
Proof. unfold pad_connections. rewrite length_app, length_replicate. lia. Qed.

(** What [acceptConnection] guarantees: the accepted handle is inside the
    table afterwards, the slots that existed keep their content, and when
    the handle was not below the size of the table its slot holds the new
    connection. *)
Lemma acceptConnection_slots {I D} ret (p p' : Process I D) con :
  acceptConnection ret p = Ok (con, p') ->
  con = ret /\ 0 <= ret /\
  (Z.to_nat ret < length (connections p'))%nat /\
  (forall i c, connections p !! i = Some c -> connections p' !! i = Some c) /\
  ((length (connections p) <= Z.to_nat ret)%nat ->
   connections p' !! Z.to_nat ret = Some (ConnectionState_ctor ret)).
Proof.
  unfold acceptConnection.
  destruct (Z.ltb_spec ret 0); [discriminate|].
  destruct (epoll_ctl_add _ _); [|discriminate].
  intros [= <- <-]. cbn [connections].
  split; [reflexivity|]. split; [assumption|].
  split; [rewrite length_app, length_pad_connections; cbn; lia|].
  split.
  - intros i c Hi. unfold pad_connections.
    rewrite <- app_assoc. apply lookup_app_l_Some. exact Hi.
  - intros Hle. rewrite lookup_app_r; rewrite length_pad_connections; [|lia].
    replace (Z.to_nat ret - Nat.max (length (connections p)) (Z.to_nat ret))%nat
      with 0%nat by lia.
    reflexivity.
Qed.

(** Below the size of the table the slot of the accepted handle is left as
    it was, and the new connection is appended at the end. *)
Lemma acceptConnection_below_size {I D} ret (p p' : Process I D) con :
  acceptConnection ret p = Ok (con, p') ->
  (Z.to_nat ret < length (connections p))%nat ->
  connections p' !! Z.to_nat ret = connections p !! Z.to_nat ret /\
  connections p' = (connections p ++ [ConnectionState_ctor ret])%list.
Proof.
  unfold acceptConnection.
  destruct (Z.ltb_spec ret 0); [discriminate|].
  destruct (epoll_ctl_add _ _); [|discriminate].
  intros [= <- <-] Hlt. cbn [connections]. unfold pad_connections.
  replace (Z.to_nat ret - length (connections p))%nat with 0%nat by lia.
  cbn [replicate]. rewrite app_nil_r.
  split; [apply lookup_app_l; exact Hlt | reflexivity].
Qed.

(** C5: an accepted handle below the size of the table does not get its
    slot.  From the state [main] starts the loop in (listening socket 4,
    epoll descriptor 5), [accept] returns 6 and then 3: the first
    connection is stored at index 6 behind six placeholders, the second is
    appended at index 7, and index 3, where [acceptInput] will look for it,
    still holds the placeholder [ConnectionState(-1)]. *)
Theorem accept_below_table_size :
  forall (I D : Type) (g : Globals D),
  exists p1 p2 : Process I D,
    acceptConnection 6 (initial_process 4 5 g) = Ok (6, p1) /\
    acceptConnection 3 p1 = Ok (3, p2) /\
    connections p1 !! 6%nat = Some (ConnectionState_ctor 6) /\
    length (connections p1) = 7%nat /\
    connections p2 !! 3%nat = Some (ConnectionState_ctor (-1)) /\
    connections p2 !! 7%nat = Some (ConnectionState_ctor 3) /\
    length (connections p2) = 8%nat.
Proof.
  intros I D g. eexists _, _.
  split; [vm_compute; reflexivity|].
  split; [vm_compute; reflexivity|].
  repeat split.
Qed.

(** ** Reads that end a connection *)

(** A read of zero bytes on a connection whose buffer holds no complete
    line changes nothing at all. *)
Lemma acceptInput_zero {I D}
    (handleLine : ConnectionState I -> string -> Globals D ->
                  outcome (ConnectionState I * Globals D))
    f buffer (p : Process I D) c :
  0 <= f ->
  connections p !! Z.to_nat f = Some c ->
  find LF (buf c) = None ->
  acceptInput handleLine f 0 buffer p = Ok p.
Proof.
  intros Hf Hc Hlf. unfold acceptInput. cbn [Z.ltb Z.compare].
  unfold read_slot, assign_slot, slot, at_index.
  destruct (Z.ltb_spec f 0); [lia|]. rewrite Hc. cbn [mbind outcome_bind].
  replace (range 0 (Z.to_nat 0) buffer) with "" by (destruct buffer; reflexivity).
  rewrite handleInput_empty by exact Hlf. cbn [mbind outcome_bind].
  pose proof (lookup_lt_Some _ _ _ Hc) as Hlt.
  rewrite bool_decide_eq_true_2 by exact Hlt. cbn [mbind outcome_bind].
  rewrite list_insert_id by exact Hc. destruct p; reflexivity.
Qed.

(** A failed read throws unless descriptor 0 is in the interest list. *)
Lemma acceptInput_negative {I D}
    (handleLine : ConnectionState I -> string -> Globals D ->
                  outcome (ConnectionState I * Globals D))
    f len buffer (p : Process I D) :
  len < 0 ->
  0 ∉ interest (kernel p) ->
  acceptInput handleLine f len buffer p = Throw (CString "epoll_ctl(2) failed").
Proof.
  intros Hlen H0. unfold acceptInput, epoll_ctl_del.
  destruct (Z.ltb_spec len 0); [|lia].
  rewrite bool_decide_eq_false_2 by exact H0. reflexivity.
Qed.

(** C2: what [acceptInput] does when [read] returns zero or a negative
    value on connection 5 of [one_connection].  On zero it feeds the
    empty string to the parser and nothing else happens: the descriptor
    stays open and registered and the slot keeps the connection.  On -1
    it asks the poller to delete descriptor 0, which is not registered,
    and throws, which ends the loop.  And when the listening socket is
    descriptor 0, it is the listening socket that is unregistered. *)
Theorem read_zero_or_negative :
  forall (I D : Type)
         (handleLine : ConnectionState I -> string -> Globals D ->
                       outcome (ConnectionState I * Globals D))
         (g : Globals D) (buffer : string),
    acceptInput handleLine 5 0 buffer (one_connection g) = Ok (one_connection g) /\
    acceptInput handleLine 5 (-1) buffer (one_connection g)
      = Throw (CString "epoll_ctl(2) failed") /\
    acceptInput handleLine 5 (-1) buffer
      {| connections := connections (one_connection g);
         kernel := {| open_fds := {[0; 4; 5]}; interest := {[0; 5]} |};
         globals := g |}
      = Ok {| connections := replicate 5 (ConnectionState_ctor (-1))
                             ++ [ConnectionState_ctor (-1)];
              kernel := {| open_fds := {[0; 4]}; interest := ∅ |};
              globals := g |}.
Proof.
  intros I D handleLine g buffer. split; [|split].
  - unfold acceptInput. cbn [Z.ltb Z.compare].
    change (range 0 (Z.to_nat 0) buffer) with (range 0 0 buffer).
    replace (range 0 0 buffer) with "" by (destruct buffer; reflexivity).
    reflexivity.
  - reflexivity.
  - vm_compute. reflexivity.
Qed.

(** ** The embedding at work *)

(** A geo client, lines ending in CR LF: the target becomes (10, 20). *)
Example geo_session :
  match handleInput (Geo.handleLine atof_decimal) (ConnectionState_ctor 5)
          ("ACTION" ++ crlf ++ "Content-type: x-poserspace/geo" ++ crlf ++ crlf
           ++ "10.0" ++ tab ++ "20.0" ++ crlf)
          {| cerr := []; shared := Geo.mkGeoData 0%Q 0%Q 0%Q 0%Q |} with
  | Ok (c, g) =>
      state c = DATA /\ interpreter c = Some Geo.GeoInterpreter /\ buf c = "" /\
      Geo.targetLat (shared g) = (10 # 1)%Q /\ Geo.targetLon (shared g) = (20 # 1)%Q
  | _ => False
  end.
Proof. vm_compute. repeat split. Qed.

(** A text client, read in three pieces: one item, none for the record
    with an empty first field. *)
Example text_session :
  match feed (Sidescroll.handleLine Sidescroll.LeftFirst)
          ["ACTION" ++ crlf ++ "Content-type: x-poser";
           "space/text" ++ crlf ++ crlf ++ "hel";
           "lo" ++ crlf ++ tab ++ crlf]
          (ConnectionState_ctor 5) example_scene with
  | Ok (c, g) =>
      state c = DATA /\ buf c = "" /\
      map Sidescroll.content (Sidescroll.lines (shared g)) = ["hello"] /\
      map Sidescroll.h (Sidescroll.lines (shared g)) = [24]
  | _ => False
  end.
Proof. vm_compute. repeat split. Qed.

(** A line feed at the very start of the buffer, as a blank line ended by
    a bare LF leaves it, makes [handleInput] read the character in front
    of the buffer. *)
Example bare_line_feed :
  forall order g,
    handleInput (Sidescroll.handleLine order) (ConnectionState_ctor 5)
      (String LF "") g = Undefined OutOfRange.
Proof. reflexivity. Qed.

(** * Further properties *)

(** ** Line extraction *)

Lemma find_split c s i :
  find c s = Some i -> s = range 0 i s ++ String c (suffix (S i) s).
Proof.
  revert i; induction s as [|a s IH]; cbn [find]; intros i H; [discriminate|].
  destruct (Ascii.eqb_spec a c) as [->|Hne].
  - injection H as <-. unfold suffix, range. cbn.
    rewrite Nat.sub_0_r, substring_all. reflexivity.
  - destruct (find c s) as [j|]; cbn in H; [|discriminate].
    injection H as <-. specialize (IH j eq_refl).
    unfold suffix, range in *. cbn [String.length substring Nat.sub] in *.
    rewrite Nat.sub_0_r in *. rewrite string_app_cons. f_equal. exact IH.
Qed.

Lemma range_find_free c s i : find c s = Some i -> find c (range 0 i s) = None.
Proof.
  revert i; induction s as [|a s IH]; cbn [find]; intros i H; [discriminate|].
  destruct (Ascii.eqb a c) eqn:E.
  - injection H as <-. reflexivity.
  - destruct (find c s) as [j|]; cbn in H; [|discriminate].
    injection H as <-. specialize (IH j eq_refl).
    unfold range in *. cbn. rewrite Nat.sub_0_r in *. rewrite E, IH. reflexivity.
Qed.

Lemma handleInput_loop_remainder {I D : Type}
    (handleLine : ConnectionState I -> string -> Globals D ->
                  outcome (ConnectionState I * Globals D))
    (c' : ConnectionState I) (g' : Globals D) :
  forall n (c : ConnectionState I) g,
    (String.length (buf c) < n)%nat ->
    handleInput_loop handleLine c g = Ok (c', g') ->
    find LF (buf c') = None /\
    exists consumed,
      buf c = consumed ++ buf c' /\
      (consumed = "" \/ exists before, consumed = before ++ lf).
Proof.
  induction n as [|n IH]; intros c2 g2 Hn; [lia|].
  rewrite handleInput_loop_step.
  destruct (find LF (buf c2)) as [nl|] eqn:Hnl.
  - destruct (line_end (buf c2) nl) as [e| |]; cbn; try discriminate.
    destruct (handleLine c2 (range 0 e (buf c2)) g2) as [[c3 g3]| |];
      cbn; try discriminate.
    intros Hloop.
    pose proof (find_lt _ _ _ Hnl) as Hlt.
    apply IH in Hloop; [|cbn; pose proof (suffix_shorter nl (buf c2) Hlt); lia].
    destruct Hloop as (Hfree & consumed & Heq & Hc). cbn [buf set_buf] in Heq.
    split; [exact Hfree|].
    exists ((range 0 nl (buf c2) ++ lf) ++ consumed). split.
    + rewrite !string_app_assoc, <- Heq. unfold lf.
      rewrite string_app_cons. apply find_split. exact Hnl.
    + right. destruct Hc as [->|[before ->]].
      * exists (range 0 nl (buf c2)). now rewrite string_app_empty_r.
      * exists ((range 0 nl (buf c2) ++ lf) ++ before).
        now rewrite !string_app_assoc.
  - intros [= <- <-]. split; [exact Hnl|]. exists "". split; [reflexivity | now left].
Qed.

(** X1: whatever the line handler does, when [handleInput] returns the
    buffer holds exactly the bytes that followed the last line feed of the
    old buffer and the input: everything up to and including that line
    feed has been consumed, and no line feed is left behind. *)
Theorem handleInput_remainder {I D : Type}
    (handleLine : ConnectionState I -> string -> Globals D ->
                  outcome (ConnectionState I * Globals D))
    (c c' : ConnectionState I) (input : string) (g g' : Globals D) :
  handleInput handleLine c input g = Ok (c', g') ->
  find LF (buf c') = None /\
  exists consumed,
    buf c ++ input = consumed ++ buf c' /\
    (consumed = "" \/ exists before, consumed = before ++ lf).
Proof.
  unfold handleInput. intros H.
  apply (handleInput_loop_remainder handleLine c' g'
           (S (String.length (buf c ++ input))) _ g) in H; [exact H | cbn; lia].
Qed.

Lemma handleInput_remainder_witness :
  find LF "Content-ty" = None /\
  exists consumed,
    "AC" ++ ("TION" ++ crlf ++ "Content-ty") = consumed ++ "Content-ty" /\
    (consumed = "" \/ exists before, consumed = before ++ lf).
Proof.
  apply (handleInput_remainder record_line
           {| fd := 5; buf := "AC"; state := ACTION; interpreter := None |}
           {| fd := 5; buf := "Content-ty"; state := ACTION; interpreter := None |}
           ("TION" ++ crlf ++ "Content-ty")
           {| cerr := []; shared := [] |}
           {| cerr := []; shared := ["ACTION"] |}).
  reflexivity.
Defined.

Lemma buf_independent_keeps_buf {I D : Type}
    (handleLine : ConnectionState I -> string -> Globals D ->
                  outcome (ConnectionState I * Globals D)) c line g c' g' :
  buf_independent handleLine ->
  handleLine c line g = Ok (c', g') -> buf c' = buf c.
Proof.
  intros Hb H. pose proof (Hb c (buf c) line g) as E.
  rewrite set_buf_same, H in E. cbn in E. injection E as E.
  rewrite E. reflexivity.
Qed.

Section Lines.
Context {I D : Type}.
Variable handleLine :
ConnectionState I -> string -> Globals D -> outcome (ConnectionState I * Globals D).
Hypothesis handleLine_buf : buf_independent handleLine.

Lemma handleInput_loop_is_handleInput (c : ConnectionState I) b g :
handleInput_loop handleLine (set_buf c b) g = handleInput handleLine (set_buf c "") b g.
Proof. reflexivity. Qed.

(** The lines of [wire ls] reach [handleLine] one by one, in order and
  without their terminators; then the rest of the input is looked at. *)
Lemma handleInput_wire ls : forall tail c g,
buf c = "" ->
Forall (fun l => find LF l = None) ls ->
handleInput handleLine c (wire ls ++ tail) g =
('(c', g') ← handleLines handleLine ls c g; handleInput handleLine c' tail g').
Proof.
induction ls as [|line ls IH]; intros tail c g Hb Hall.
- reflexivity.
- inversion Hall as [|? ? Hline Hrest]; subst.
  cbn [wire handleLines]. rewrite !string_app_assoc.
  rewrite handleInput_first_line by assumption.
  rewrite handleLine_buf.
  destruct (handleLine c line g) as [[c1 g1]| |] eqn:E; try reflexivity.
  cbn [mbind outcome_bind]. rewrite set_buf_set_buf.
  pose proof (buf_independent_keeps_buf _ _ _ _ _ _ handleLine_buf E) as Hb1.
  rewrite Hb in Hb1.
  rewrite handleInput_loop_is_handleInput.
  replace (set_buf c1 "") with c1 by (rewrite <- Hb1; symmetry; apply set_buf_same).
  apply IH; assumption.
Qed.

(** The first line of the buffer, ended by a bare LF. *)
Lemma handleInput_first_line_lf c line more g :
buf c = "" -> find LF line = None ->
line <> "" -> ends_with_CR line = false ->
handleInput handleLine c (line ++ lf ++ more) g =
('(c', g') ← handleLine c line g;
 handleInput_loop handleLine (set_buf c' more) g').
Proof.
intros Hb Hl Hne Hcr. unfold handleInput. rewrite Hb.
change ("" ++ line ++ lf ++ more) with (line ++ lf ++ more).
rewrite handleInput_loop_step. cbn [buf set_buf].
rewrite (find_app_missing _ _ _ Hl).
change (find LF (lf ++ more)) with (Some 0%nat). cbn [option_map].
rewrite Nat.add_0_r.
destruct (String.length line) as [|p] eqn:Hlen;
  [destruct line; [contradiction | discriminate]|].
cbn [line_end]. rewrite get_app_l by lia.
unfold ends_with_CR in Hcr. rewrite Hlen in Hcr.
cbn [Nat.sub] in Hcr. rewrite Nat.sub_0_r in Hcr.
destruct (String.get p line) as [a|] eqn:Hget.
2:{ exfalso. clear - Hget Hlen. revert p Hget Hlen.
    induction line as [|a l IH]; intros p Hget Hlen; [discriminate|].
    destruct p as [|p]; [discriminate|]. cbn in *.
    apply (IH p); [exact Hget | lia]. }
rewrite Hcr. cbn [mbind outcome_bind].
rewrite <- Hlen, range_prefix, handleLine_buf.
destruct (handleLine c line g) as [[c1 g1]| |]; try reflexivity.
cbn [mbind outcome_bind]. rewrite set_buf_set_buf. do 2 f_equal.
rewrite <- string_app_assoc.
replace (S (String.length line)) with (String.length (line ++ lf))
  by (rewrite string_length_app; cbn; lia).
apply suffix_app_r.
Qed.

Lemma handleInput_first_line_crlf c line more g :
buf c = "" -> find LF line = None ->
handleInput handleLine c (line ++ crlf ++ more) g =
('(c', g') ← handleLine c line g;
 handleInput_loop handleLine (set_buf c' more) g').
Proof.
intros Hb Hl. rewrite handleInput_first_line by assumption.
rewrite handleLine_buf.
destruct (handleLine c line g) as [[c1 g1]| |]; try reflexivity.
Qed.
End Lines.

(** X2: in both programs, on a connection with an empty buffer, the lines
    of an input made of CR LF terminated lines are handed to [handleLine]
    one by one, in order and without their terminators, before the bytes
    behind them are looked at; an exception or fault of one line ends the
    run there. *)
Theorem handleInput_hands_over_lines :
  (forall double (atof : string -> double) ls tail c g,
      buf c = "" ->
      Forall (fun l => find LF l = None) ls ->
      handleInput (Geo.handleLine atof) c (wire ls ++ tail) g =
      ('(c', g') ← handleLines (Geo.handleLine atof) ls c g;
       handleInput (Geo.handleLine atof) c' tail g')) /\
  (forall order ls tail c g,
      buf c = "" ->
      Forall (fun l => find LF l = None) ls ->
      handleInput (Sidescroll.handleLine order) c (wire ls ++ tail) g =
      ('(c', g') ← handleLines (Sidescroll.handleLine order) ls c g;
       handleInput (Sidescroll.handleLine order) c' tail g')).
Proof.
  split; intros.
  - apply handleInput_wire; [apply geo_handleLine_buf | assumption | assumption].
  - apply handleInput_wire; [apply side_handleLine_buf | assumption | assumption].
Qed.

Lemma handleInput_hands_over_lines_witness :
  handleInput (Sidescroll.handleLine Sidescroll.LeftFirst) (ConnectionState_ctor 5)
    (wire ["ACTION"; "Content-type: x-poserspace/text"; ""] ++ "hel") example_scene =
  ('(c', g') ← handleLines (Sidescroll.handleLine Sidescroll.LeftFirst)
                 ["ACTION"; "Content-type: x-poserspace/text"; ""]
                 (ConnectionState_ctor 5) example_scene;
   handleInput (Sidescroll.handleLine Sidescroll.LeftFirst) c' "hel" g').
Proof.
  apply (proj2 handleInput_hands_over_lines Sidescroll.LeftFirst
           ["ACTION"; "Content-type: x-poserspace/text"; ""] "hel"
           (ConnectionState_ctor 5) example_scene eq_refl).
  repeat constructor.
Defined.

(** X3: in both programs a first line that is not empty and does not
    itself end in a carriage return is handled the same whether it is
    ended by CR LF or by a bare LF. *)
Theorem crlf_and_lf_alike :
  (forall double (atof : string -> double) c line more g,
      buf c = "" -> find LF line = None ->
      line <> "" -> ends_with_CR line = false ->
      handleInput (Geo.handleLine atof) c (line ++ crlf ++ more) g =
      handleInput (Geo.handleLine atof) c (line ++ lf ++ more) g) /\
  (forall order c line more g,
      buf c = "" -> find LF line = None ->
      line <> "" -> ends_with_CR line = false ->
      handleInput (Sidescroll.handleLine order) c (line ++ crlf ++ more) g =
      handleInput (Sidescroll.handleLine order) c (line ++ lf ++ more) g).
Proof.
  split; intros.
  - rewrite handleInput_first_line_crlf, handleInput_first_line_lf;
      auto using geo_handleLine_buf.
  - rewrite handleInput_first_line_crlf, handleInput_first_line_lf;
      auto using side_handleLine_buf.
Qed.

Lemma crlf_and_lf_alike_witness :
  handleInput (Sidescroll.handleLine Sidescroll.LeftFirst)
    {| fd := 5; buf := ""; state := DATA; interpreter := Some Sidescroll.TextInterpreter |}
    ("hello" ++ crlf ++ "wor") example_scene =
  handleInput (Sidescroll.handleLine Sidescroll.LeftFirst)
    {| fd := 5; buf := ""; state := DATA; interpreter := Some Sidescroll.TextInterpreter |}
    ("hello" ++ lf ++ "wor") example_scene.
Proof.
  apply (proj2 crlf_and_lf_alike Sidescroll.LeftFirst
           {| fd := 5; buf := ""; state := DATA;
              interpreter := Some Sidescroll.TextInterpreter |}
           "hello" "wor" example_scene eq_refl eq_refl).
  - discriminate.
  - reflexivity.
Defined.



(** ** Header lines *)

Lemma trim_left_copy_app ws v :
  all_space ws = true -> starts_with_space v = false ->
  trim_left_copy (ws ++ v) = v.
Proof.
  intros Hws Hv. induction ws as [|a ws IH].
  - change ("" ++ v) with v. destruct v as [|b v]; [reflexivity|].
    cbn in *. now rewrite Hv.
  - rewrite string_app_cons. cbn in *.
    apply andb_true_iff in Hws as [Ha Hws]. rewrite Ha. now apply IH.
Qed.

Lemma header_line_parts name ws value :
  find COLON name = None ->
  all_space ws = true -> starts_with_space value = false ->
  let line := name ++ ":" ++ ws ++ value in
  String.eqb line "" = false /\
  find COLON line = Some (String.length name) /\
  range 0 (String.length name) line = name /\
  trim_left_copy (suffix (S (String.length name)) line) = value.
Proof.
  intros Hn Hws Hv line. subst line. repeat split.
  - destruct name; reflexivity.
  - rewrite (find_app_missing _ _ _ Hn).
    change (find COLON (":" ++ ws ++ value)) with (Some 0%nat).
    cbn. now rewrite Nat.add_0_r.
  - apply range_prefix.
  - change (":" ++ ws ++ value) with (String COLON "" ++ ws ++ value).
    rewrite <- string_app_assoc.
    replace (S (String.length name)) with (String.length (name ++ String COLON ""))
      by (rewrite string_length_app; cbn; lia).
    rewrite suffix_app_r. now apply trim_left_copy_app.
Qed.

(** X5: a header line is split at its first colon, and the value loses
    the white space in front of it, before the binding is decided.  In the
    text display the line binds the Text interpreter exactly when the name
    is [Content-type] and the value is [x-poserspace/text]; in the
    coordinate display [x-poserspace/geo] binds Geo as well.  Every other
    header line, whatever its name or value, leaves the binding as it was;
    the state stays HEADER and [std::cerr] gets the name and the value. *)
Theorem header_line_binding :
  (forall double (atof : string -> double) name ws value c
          (g : Globals (Geo.GeoData double)),
      state c = HEADER ->
      find COLON name = None ->
      all_space ws = true -> starts_with_space value = false ->
      Geo.handleLine atof c (name ++ ":" ++ ws ++ value) g =
      Ok (set_interpreter c
            (if String.eqb name "Content-type" then
               if String.eqb value "x-poserspace/text" then Some Geo.TextInterpreter
               else if String.eqb value "x-poserspace/geo" then Some Geo.GeoInterpreter
               else interpreter c
             else interpreter c),
          log ("Header: " ++ name ++ " => " ++ value) g)) /\
  (forall order name ws value c (g : Globals Sidescroll.Scene),
      state c = HEADER ->
      find COLON name = None ->
      all_space ws = true -> starts_with_space value = false ->
      Sidescroll.handleLine order c (name ++ ":" ++ ws ++ value) g =
      Ok (set_interpreter c
            (if String.eqb name "Content-type" && String.eqb value "x-poserspace/text"
             then Some Sidescroll.TextInterpreter
             else interpreter c),
          log ("Header: " ++ name ++ " => " ++ value) g)).
Proof.
  split.
  - intros double atof name ws value c g Hs Hn Hws Hv.
    destruct (header_line_parts name ws value Hn Hws Hv) as (H1 & H2 & H3 & H4).
    unfold Geo.handleLine. rewrite Hs, H1, H2, H3, H4.
    unfold Geo.handleHeader. destruct c as [f b st it]. cbn [interpreter].
    destruct (String.eqb name "Content-type"); [|reflexivity].
    destruct (String.eqb_spec value "x-poserspace/geo") as [->|_];
      [reflexivity|].
    destruct (String.eqb value "x-poserspace/text"); reflexivity.
  - intros order name ws value c g Hs Hn Hws Hv.
    destruct (header_line_parts name ws value Hn Hws Hv) as (H1 & H2 & H3 & H4).
    unfold Sidescroll.handleLine. rewrite Hs, H1, H2, H3, H4.
    unfold Sidescroll.handleHeader. destruct c as [f b st it]. cbn [interpreter].
    destruct (String.eqb name "Content-type"); [|reflexivity].
    destruct (String.eqb value "x-poserspace/text"); reflexivity.
Qed.

Lemma header_line_binding_witness :
  Geo.handleLine atof_decimal
    {| fd := 5; buf := ""; state := HEADER; interpreter := Some Geo.TextInterpreter |}
    ("Content-type" ++ ":" ++ (" " ++ tab) ++ "x-poserspace/geo")
    {| cerr := []; shared := Geo.mkGeoData 0%Q 0%Q 0%Q 0%Q |}
  = Ok ({| fd := 5; buf := ""; state := HEADER;
           interpreter := Some Geo.GeoInterpreter |},
        {| cerr := ["Header: Content-type => x-poserspace/geo"];
           shared := Geo.mkGeoData 0%Q 0%Q 0%Q 0%Q |}).
Proof.
  apply (proj1 header_line_binding Q atof_decimal
           "Content-type" (" " ++ tab) "x-poserspace/geo"
           {| fd := 5; buf := ""; state := HEADER;
              interpreter := Some Geo.TextInterpreter |}
           {| cerr := []; shared := Geo.mkGeoData 0%Q 0%Q 0%Q 0%Q |}
           eq_refl eq_refl eq_refl eq_refl).
Defined.

Lemma geo_handleLine_keeps_binding {double} (atof : string -> double) c line g c' g' :
  Geo.handleLine atof c line g = Ok (c', g') ->
  is_Some (interpreter c) -> is_Some (interpreter c').
Proof.
  destruct c as [f b st it]. unfold Geo.handleLine. cbn [state interpreter].
  destruct st.
  - intros [= <- <-]. auto.
  - destruct (String.eqb line ""); [intros [= <- <-]; auto|].
    destruct (find COLON line); [|discriminate].
    unfold Geo.handleHeader.
    repeat match goal with |- context [if ?t then _ else _] => destruct t end;
      intros [= <- <-]; cbn; eauto.
  - destruct (Geo.handleData it (split TAB line) (log line g)); cbn; try discriminate.
    destruct (at_index (split TAB line) 0); cbn; try discriminate.
    destruct (at_index (split TAB line) 1); cbn; try discriminate.
    intros [= <- <-]. auto.
Qed.

Lemma side_handleLine_keeps_binding order c line g c' g' :
  Sidescroll.handleLine order c line g = Ok (c', g') ->
  is_Some (interpreter c) -> is_Some (interpreter c').
Proof.
  destruct c as [f b st it]. unfold Sidescroll.handleLine. cbn [state interpreter].
  destruct st.
  - intros [= <- <-]. auto.
  - destruct (String.eqb line ""); [intros [= <- <-]; auto|].
    destruct (find COLON line); [|discriminate].
    unfold Sidescroll.handleHeader.
    repeat match goal with |- context [if ?t then _ else _] => destruct t end;
      intros [= <- <-]; cbn; eauto.
  - destruct (Sidescroll.handleData order it (split TAB line) (log line g));
      cbn; try discriminate.
    intros [= <- <-]. auto.
Qed.

Lemma handleLines_keep {I D : Type}
    (handleLine : ConnectionState I -> string -> Globals D ->
                  outcome (ConnectionState I * Globals D))
    (P : ConnectionState I -> Globals D -> Prop) :
  (forall c line g c' g', handleLine c line g = Ok (c', g') -> P c g -> P c' g') ->
  forall ls c g c' g',
    handleLines handleLine ls c g = Ok (c', g') -> P c g -> P c' g'.
Proof.
  intros Hstep. induction ls as [|line ls IH]; intros c g c' g' H HP.
  - injection H as <- <-. exact HP.
  - apply handleLines_cons in H as (c1 & g1 & H1 & H2).
    eapply IH; [exact H2|]. eapply Hstep; eassumption.
Qed.

(** X6: in both programs no line ever empties the binding: once a
    connection has an interpreter it has one after every further sequence
    of lines, also after header lines with other content types. *)
Theorem binding_never_emptied :
  (forall double (atof : string -> double) ls c g c' g',
      is_Some (interpreter c) ->
      handleLines (Geo.handleLine atof) ls c g = Ok (c', g') ->
      is_Some (interpreter c')) /\
  (forall order ls c g c' g',
      is_Some (interpreter c) ->
      handleLines (Sidescroll.handleLine order) ls c g = Ok (c', g') ->
      is_Some (interpreter c')).
Proof.
  split.
  - intros double atof ls c g c' g' Hi H.
    apply (handleLines_keep (Geo.handleLine atof) (fun c _ => is_Some (interpreter c))
             (geo_handleLine_keeps_binding atof) ls c g c' g' H Hi).
  - intros order ls c g c' g' Hi H.
    apply (handleLines_keep (Sidescroll.handleLine order)
             (fun c _ => is_Some (interpreter c))
             (side_handleLine_keeps_binding order) ls c g c' g' H Hi).
Qed.

Lemma binding_never_emptied_witness :
  is_Some (interpreter
             {| fd := 5; buf := ""; state := HEADER;
                interpreter := Some Sidescroll.TextInterpreter |}).
Proof.
  apply (proj2 binding_never_emptied Sidescroll.LeftFirst
           ["Content-type: text/html"; "X-Other: 1"]
           {| fd := 5; buf := ""; state := HEADER;
              interpreter := Some Sidescroll.TextInterpreter |}
           example_scene
           {| fd := 5; buf := ""; state := HEADER;
              interpreter := Some Sidescroll.TextInterpreter |}
           (log "Header: X-Other => 1"
              (log "Header: Content-type => text/html" example_scene))).
  - eexists; reflexivity.
  - reflexivity.
Defined.

(** ** Data records, continued *)

Lemma split_head sep s :
  exists rest,
    split sep s =
    match find sep s with Some i => range 0 i s | None => s end :: rest.
Proof.
  induction s as [|a s [rest IH]]; cbn [split find].
  - exists []. reflexivity.
  - destruct (Ascii.eqb a sep).
    + eexists. reflexivity.
    + rewrite IH. eexists. f_equal.
      destruct (find sep s) as [i|]; cbn [option_map]; [|reflexivity].
      unfold range. cbn. now rewrite !Nat.sub_0_r.
Qed.

Lemma split_without_separator sep s : find sep s = None -> split sep s = [s].
Proof.
  induction s as [|a s IH]; cbn [split find]; [reflexivity|].
  destruct (Ascii.eqb a sep); [discriminate|].
  destruct (find sep s); [discriminate|]. intros _. now rewrite IH.
Qed.

(** X7: in the text display, on a connection in DATA bound to the Text
    interpreter, every line is handled without failure (given libc's
    promise about [rand()] and the font table of [main]).  The line is
    written to [std::cerr]; when the text before its first tab is empty,
    nothing else happens; otherwise exactly one item is appended, whose
    text is the text before the first tab, the fields behind it being
    ignored. *)
Theorem text_line_display_item order (c : ConnectionState Sidescroll.DataInterpreter)
    (line : string) (g : Globals Sidescroll.Scene) :
  state c = DATA ->
  interpreter c = Some Sidescroll.TextInterpreter ->
  rand_in_range (shared g) ->
  Sidescroll.fonts (shared g) = Sidescroll.main_fonts ->
  (first_field line = "" ->
     Sidescroll.handleLine order c line g = Ok (c, log line g)) /\
  (first_field line <> "" ->
     exists l d',
       Sidescroll.handleLine order c line g = Ok (c, set_shared (log line g) d') /\
       Sidescroll.lines d' = (Sidescroll.lines (shared g) ++ [l])%list /\
       Sidescroll.content l = first_field line).
Proof.
  intros Hs Hi Hr Hf. unfold Sidescroll.handleLine. rewrite Hs, Hi.
  cbn [Sidescroll.handleData].
  destruct (split_head TAB line) as [rest ->]. fold (first_field line). split.
  - intros ->. reflexivity.
  - intros Hne.
    destruct (text_record_item order (first_field line) rest (log line g) Hne Hr Hf)
      as (m & l & d' & H & Hl & _ & _ & _ & Hc & _).
    rewrite H. exists l, d'. repeat split; assumption.
Qed.

Lemma text_line_display_item_witness :
  (first_field ("hello" ++ tab ++ "ignored") = "" ->
     Sidescroll.handleLine Sidescroll.RightFirst
       {| fd := 5; buf := ""; state := DATA;
          interpreter := Some Sidescroll.TextInterpreter |}
       ("hello" ++ tab ++ "ignored") example_scene
     = Ok ({| fd := 5; buf := ""; state := DATA;
              interpreter := Some Sidescroll.TextInterpreter |},
           log ("hello" ++ tab ++ "ignored") example_scene)) /\
  (first_field ("hello" ++ tab ++ "ignored") <> "" ->
     exists l d',
       Sidescroll.handleLine Sidescroll.RightFirst
         {| fd := 5; buf := ""; state := DATA;
            interpreter := Some Sidescroll.TextInterpreter |}
         ("hello" ++ tab ++ "ignored") example_scene
       = Ok ({| fd := 5; buf := ""; state := DATA;
                interpreter := Some Sidescroll.TextInterpreter |},
             set_shared (log ("hello" ++ tab ++ "ignored") example_scene) d') /\
       Sidescroll.lines d' = (Sidescroll.lines (shared example_scene) ++ [l])%list /\
       Sidescroll.content l = first_field ("hello" ++ tab ++ "ignored")).
Proof.
  assert (Hr : rand_in_range (shared example_scene)).
  { intros n. unfold RAND_MAX. simpl. lia. }
  apply (text_line_display_item Sidescroll.RightFirst
           {| fd := 5; buf := ""; state := DATA;
              interpreter := Some Sidescroll.TextInterpreter |}
           ("hello" ++ tab ++ "ignored") example_scene eq_refl eq_refl Hr eq_refl).
Defined.

Lemma maxsize_choices_cap n m : 30 <= n -> In m (maxsize_choices n) -> m <= 24.
Proof.
  intros Hn. unfold maxsize_choices.
  repeat match goal with
         | |- context [if ?a <? ?b then _ else _] => destruct (Z.ltb_spec a b)
         end; try lia; cbn; intuition lia.
Qed.

(** X8: the item a text record appends starts at the right edge of the
    screen ([x] is WIDTH) at a height [y] inside the screen, has no
    surface yet, and is pure green with a green value from 56 to 249, so
    that the conversion of the colour to [uint8_t] in the renderer cannot
    wrap around; with 30 or more items on display its height is at most
    27. *)
Theorem text_item_geometry order (first : string) (rest : list string)
    (g : Globals Sidescroll.Scene) :
  first <> "" ->
  rand_in_range (shared g) ->
  Sidescroll.fonts (shared g) = Sidescroll.main_fonts ->
  exists l d',
    Sidescroll.TextInterpreter_handleData order (first :: rest) g
      = Ok (set_shared g d') /\
    Sidescroll.lines d' = (Sidescroll.lines (shared g) ++ [l])%list /\
    Sidescroll.x l = Sidescroll.WIDTH /\
    Sidescroll.w l = 2 * Sidescroll.WIDTH /\
    0 <= Sidescroll.y l < Sidescroll.HEIGHT /\
    Sidescroll.surface l = None /\
    Sidescroll.col_r l = 0 /\ Sidescroll.col_b l = 0 /\
    56 <= Sidescroll.col_g l <= 249 /\
    4 <= Sidescroll.h l <= 31 /\
    (30 <= Sidescroll.to_int (Z.of_nat (length (Sidescroll.lines (shared g)))) ->
     Sidescroll.h l <= 27).
Proof.
  intros Hne Hr Hf.
  unfold Sidescroll.TextInterpreter_handleData.
  cbn [at_index lookup list_lookup mbind outcome_bind].
  destruct (String.eqb_spec first "") as [->|_]; [contradiction|].
  destruct (Sidescroll.draw_size order (shared g)) as [[r m] d] eqn:Ed.
  destruct (draw_size_spec _ _ _ _ _ Hr Ed) as (Hr0 & Hm & (Hl & Hfo & Hv) & Hr').
  pose proof (choices_bounds m (maxsize_choices_range _ _ Hm)) as Hb.
  destruct (Z.eqb_spec m 0) as [->|_]; [lia|].
  cbn [mbind outcome_bind].
  pose proof (Z.rem_bound_pos r m Hr0 ltac:(lia)) as Hrem.
  destruct (Z.ltb_spec (Z.rem r m + 4) 0) as [?|_]; [lia|].
  rewrite Hfo, Hf. unfold at_index.
  rewrite main_fonts_lookup by lia. cbn [mbind outcome_bind].
  cbn -[Z.rem Z.quot Z.mul Z.add Z.sub].
  set (ry := Sidescroll.rand_values d (Sidescroll.rand_calls d)).
  set (rg := Sidescroll.rand_values d (S (Sidescroll.rand_calls d))).
  assert (Hry : 0 <= ry) by apply Hr'.
  assert (Hrg : 0 <= rg) by apply Hr'.
  pose proof (Z.rem_bound_pos ry Sidescroll.HEIGHT Hry ltac:(unfold Sidescroll.HEIGHT; lia)) as Hy.
  pose proof (Z.rem_bound_pos rg 32 Hrg ltac:(lia)) as Hg.
  eexists _, _. split; [reflexivity|]. cbn -[Z.rem Z.quot Z.mul Z.add Z.sub].
  rewrite Hl.
  repeat split;
    cbn [Sidescroll.h Sidescroll.x Sidescroll.w Sidescroll.y Sidescroll.surface
         Sidescroll.col_r Sidescroll.col_g Sidescroll.col_b];
    try reflexivity; try lia.
  - rewrite Z.quot_div_nonneg by lia. apply Z.div_le_lower_bound; lia.
  - rewrite Z.quot_div_nonneg by lia.
    assert ((64 * 32 + 191 * (Z.rem r m + 4) - 32 * Z.rem rg 32) / 32 < 250)
      by (apply Z.div_lt_upper_bound; lia).
    lia.
  - intros Hn. pose proof (maxsize_choices_cap _ _ Hn Hm). lia.
Qed.

Lemma text_item_geometry_witness :
  exists l d',
    Sidescroll.TextInterpreter_handleData Sidescroll.LeftFirst ["hello"] example_scene
      = Ok (set_shared example_scene d') /\
    Sidescroll.lines d' = (Sidescroll.lines (shared example_scene) ++ [l])%list /\
    Sidescroll.x l = Sidescroll.WIDTH /\
    Sidescroll.w l = 2 * Sidescroll.WIDTH /\
    0 <= Sidescroll.y l < Sidescroll.HEIGHT /\
    Sidescroll.surface l = None /\
    Sidescroll.col_r l = 0 /\ Sidescroll.col_b l = 0 /\
    56 <= Sidescroll.col_g l <= 249 /\
    4 <= Sidescroll.h l <= 31 /\
    (30 <= Sidescroll.to_int
             (Z.of_nat (length (Sidescroll.lines (shared example_scene)))) ->
     Sidescroll.h l <= 27).
Proof.
  assert (Hne : "hello" <> "") by discriminate.
  assert (Hr : rand_in_range (shared example_scene)).
  { intros n. unfold RAND_MAX. simpl. lia. }
  apply (text_item_geometry Sidescroll.LeftFirst "hello" [] example_scene Hne Hr eq_refl).
Defined.

(** X9: in the coordinate display a data line without a tab, that is a
    record of one field, makes a connection with an interpreter bound read
    a second field that does not exist: [data[1]] in
    [GeoInterpreter::handleData], [values[1]] in [handleLine] behind the
    Text interpreter. *)
Theorem geo_record_of_one_field {double} (atof : string -> double)
    (c : ConnectionState Geo.DataInterpreter) (i : Geo.DataInterpreter)
    (line : string) (g : Globals (Geo.GeoData double)) :
  state c = DATA ->
  interpreter c = Some i ->
  find TAB line = None ->
  Geo.handleLine atof c line g = Undefined OutOfRange.
Proof.
  intros Hs Hi Ht. unfold Geo.handleLine. rewrite Hs, Hi.
  rewrite (split_without_separator _ _ Ht). destruct i; reflexivity.
Qed.

Lemma geo_record_of_one_field_witness :
  Geo.handleLine atof_decimal
    {| fd := 5; buf := ""; state := DATA; interpreter := Some Geo.GeoInterpreter |}
    "52.5" {| cerr := []; shared := Geo.mkGeoData 0%Q 0%Q 0%Q 0%Q |}
  = Undefined OutOfRange.
Proof.
  apply (geo_record_of_one_field atof_decimal
           {| fd := 5; buf := ""; state := DATA;
              interpreter := Some Geo.GeoInterpreter |}
           Geo.GeoInterpreter "52.5"
           {| cerr := []; shared := Geo.mkGeoData 0%Q 0%Q 0%Q 0%Q |}
           eq_refl eq_refl eq_refl).
Defined.

Lemma draw_size_same order d r m d' :
  Sidescroll.draw_size order d = (r, m, d') -> same_scene d d'.
Proof.
  unfold Sidescroll.draw_size.
  set (n := Sidescroll.to_int _).
  destruct order.
  - destruct (Sidescroll.rand d) as [r1 d1] eqn:E1.
    destruct (Sidescroll.maxsize n d1) as [m1 d2] eqn:E2.
    intros [= <- <- <-].
    pose proof (maxsize_spec n d1) as (_ & H & _). rewrite E2 in H.
    injection E1 as <- <-. destruct H as (?&?&?). repeat split; assumption.
  - destruct (Sidescroll.maxsize n d) as [m1 d1] eqn:E1.
    destruct (Sidescroll.rand d1) as [r1 d2] eqn:E2.
    intros [= <- <- <-].
    pose proof (maxsize_spec n d) as (_ & H & _). rewrite E1 in H.
    injection E2 as <- <-. destruct H as (?&?&?). repeat split; assumption.
Qed.

(** What one line can do to the scene. *)
Lemma side_handleLine_scene order c line g c' g' :
  Sidescroll.handleLine order c line g = Ok (c', g') ->
  Sidescroll.fonts (shared g') = Sidescroll.fonts (shared g) /\
  Sidescroll.rand_values (shared g') = Sidescroll.rand_values (shared g) /\
  (Sidescroll.lines (shared g') = Sidescroll.lines (shared g) \/
   exists l, Sidescroll.lines (shared g') = (Sidescroll.lines (shared g) ++ [l])%list /\
             Sidescroll.content l <> "").
Proof.
  destruct c as [f b st it]. unfold Sidescroll.handleLine. cbn [state interpreter].
  destruct st.
  - intros [= <- <-]. auto.
  - destruct (String.eqb line ""); [intros [= <- <-]; auto|].
    destruct (find COLON line); [|discriminate].
    unfold Sidescroll.handleHeader.
    repeat match goal with |- context [if ?t then _ else _] => destruct t end;
      intros [= <- <-]; cbn; auto.
  - destruct it as [[]|]; [|discriminate]. cbn [Sidescroll.handleData].
    unfold Sidescroll.TextInterpreter_handleData.
    destruct (at_index (split TAB line) 0) as [first| |]; cbn [mbind outcome_bind];
      try discriminate.
    destruct (String.eqb_spec first "") as [->|Hne].
    + cbn. intros [= <- <-]. cbn. auto.
    + cbn [shared log].
      destruct (Sidescroll.draw_size order (shared g)) as [[r m] d] eqn:Ed.
      apply draw_size_same in Ed as (Hl & Hf & Hv).
      destruct (m =? 0); cbn [mbind outcome_bind]; try discriminate.
      destruct (Z.rem r m + 4 <? 0); cbn [mbind outcome_bind]; try discriminate.
      destruct (at_index (Sidescroll.fonts d) _); cbn [mbind outcome_bind];
        try discriminate.
      cbn -[Z.rem Z.quot Z.mul Z.add Z.sub].
      intros [= <- <-]. cbn -[Z.rem Z.quot Z.mul Z.add Z.sub].
      split; [exact Hf|]. split; [exact Hv|]. right.
      eexists. rewrite Hl. split; [reflexivity | exact Hne].
Qed.

(** X10: in the text display no sequence of lines on any connection
    changes the font table or the values [rand()] is going to return, and
    none removes or alters an item on display: the list of items only
    grows at its end, by at most one item per line, and never by an item
    with an empty text. *)
Theorem ingestion_only_appends_items order :
  forall ls c g c' g',
    handleLines (Sidescroll.handleLine order) ls c g = Ok (c', g') ->
    Sidescroll.fonts (shared g') = Sidescroll.fonts (shared g) /\
    Sidescroll.rand_values (shared g') = Sidescroll.rand_values (shared g) /\
    exists added,
      Sidescroll.lines (shared g') = (Sidescroll.lines (shared g) ++ added)%list /\
      (length added <= length ls)%nat /\
      Forall (fun l => Sidescroll.content l <> "") added.
Proof.
  induction ls as [|line ls IH]; intros c g c' g' H.
  - injection H as <- <-. split; [reflexivity|]. split; [reflexivity|].
    exists []. rewrite app_nil_r. repeat split; constructor.
  - apply handleLines_cons in H as (c1 & g1 & H1 & H2).
    apply side_handleLine_scene in H1 as (Hf1 & Hv1 & Hl1).
    apply IH in H2 as (Hf2 & Hv2 & added & Hl2 & Hlen & Hall).
    split; [congruence|]. split; [congruence|].
    destruct Hl1 as [Hl1|(l & Hl1 & Hne)].
    + exists added. rewrite Hl2, Hl1. repeat split; [cbn; lia | exact Hall].
    + exists (l :: added). rewrite Hl2, Hl1, <- app_assoc.
      repeat split; [cbn; lia | constructor; assumption].
Qed.

Lemma ingestion_only_appends_items_witness :
  Sidescroll.fonts (shared (log "Header: Content-type => x-poserspace/text"
                              example_scene))
    = Sidescroll.fonts (shared example_scene) /\
  Sidescroll.rand_values (shared (log "Header: Content-type => x-poserspace/text"
                                    example_scene))
    = Sidescroll.rand_values (shared example_scene) /\
  exists added,
    Sidescroll.lines (shared (log "Header: Content-type => x-poserspace/text"
                                example_scene))
      = (Sidescroll.lines (shared example_scene) ++ added)%list /\
    (length added <= length ["ACTION"; "Content-type: x-poserspace/text"; ""])%nat /\
    Forall (fun l => Sidescroll.content l <> "") added.
Proof.
  apply (ingestion_only_appends_items Sidescroll.LeftFirst
           ["ACTION"; "Content-type: x-poserspace/text"; ""]
           (ConnectionState_ctor 5) example_scene
           {| fd := 5; buf := ""; state := DATA;
              interpreter := Some Sidescroll.TextInterpreter |}
           (log "Header: Content-type => x-poserspace/text" example_scene)
           eq_refl).
Defined.

Lemma geo_handleLine_current {double} (atof : string -> double) c line g c' g' :
  Geo.handleLine atof c line g = Ok (c', g') ->
  Geo.currentLat (shared g') = Geo.currentLat (shared g) /\
  Geo.currentLon (shared g') = Geo.currentLon (shared g).
Proof.
  destruct c as [f b st it]. unfold Geo.handleLine. cbn [state interpreter].
  destruct st.
  - intros [= <- <-]. auto.
  - destruct (String.eqb line ""); [intros [= <- <-]; auto|].
    destruct (find COLON line); [|discriminate].
    unfold Geo.handleHeader.
    repeat match goal with |- context [if ?t then _ else _] => destruct t end;
      intros [= <- <-]; cbn; auto.
  - destruct it as [[]|]; cbn [Geo.handleData]; try discriminate.
    + unfold Geo.GeoInterpreter_handleData.
      destruct (at_index (split TAB line) 0); cbn; try discriminate.
      destruct (at_index (split TAB line) 1); cbn; try discriminate.
      intros [= <- <-]. cbn. auto.
    + cbn.
      destruct (at_index (split TAB line) 0); cbn; try discriminate.
      destruct (at_index (split TAB line) 1); cbn; try discriminate.
      intros [= <- <-]. cbn. auto.
Qed.

(** X11: in the coordinate display no sequence of lines changes the
    current coordinates: ingestion writes the target only, and the
    position shown moves in the renderer alone. *)
Theorem ingestion_keeps_current_position {double} (atof : string -> double) :
  forall ls c g c' g',
    handleLines (Geo.handleLine atof) ls c g = Ok (c', g') ->
    Geo.currentLat (shared g') = Geo.currentLat (shared g) /\
    Geo.currentLon (shared g') = Geo.currentLon (shared g).
Proof.
  induction ls as [|line ls IH]; intros c g c' g' H.
  - injection H as <- <-. auto.
  - apply handleLines_cons in H as (c1 & g1 & H1 & H2).
    apply geo_handleLine_current in H1 as [Ha Hb].
    apply IH in H2 as [Hc Hd]. split; congruence.
Qed.

Lemma ingestion_keeps_current_position_witness :
  exists g',
    handleLines (Geo.handleLine atof_decimal)
      ["ACTION"; "Content-type: x-poserspace/geo"; ""; "10.5" ++ tab ++ "-20"]
      (ConnectionState_ctor 5)
      {| cerr := []; shared := Geo.mkGeoData 1%Q 2%Q 3%Q 4%Q |}
    = Ok ({| fd := 5; buf := ""; state := DATA;
             interpreter := Some Geo.GeoInterpreter |}, g') /\
    Geo.targetLat (shared g') = (21 # 2)%Q /\
    Geo.currentLat (shared g') = 3%Q /\ Geo.currentLon (shared g') = 4%Q.
Proof.
  eexists. split; [vm_compute; reflexivity|]. split; [reflexivity|].
  refine (ingestion_keeps_current_position atof_decimal
            ["ACTION"; "Content-type: x-poserspace/geo"; ""; "10.5" ++ tab ++ "-20"]
            (ConnectionState_ctor 5)
            {| cerr := []; shared := Geo.mkGeoData 1%Q 2%Q 3%Q 4%Q |}
            _ _ _).
  vm_compute. reflexivity.
Defined.

(** ** Registry and event loop, continued *)

(** X12: when [acceptConnection] returns, it returns the handle [accept]
    gave it; the table is the old table with entries appended, so no
    existing slot changes; the accepted handle is inside the table; and
    when the handle was not below the size of the table, the slots between
    the old end and the handle hold the placeholder [ConnectionState(-1)]
    and the handle's own slot holds [ConnectionState(handle)]. *)
Theorem accepted_handle_has_slot {I D : Type} (ret con : Z) (p p' : Process I D) :
  acceptConnection ret p = Ok (con, p') ->
  con = ret /\
  (exists appended, connections p' = (connections p ++ appended)%list) /\
  (Z.to_nat ret < length (connections p'))%nat /\
  ((length (connections p) <= Z.to_nat ret)%nat ->
   length (connections p') = S (Z.to_nat ret) /\
   connections p' !! Z.to_nat ret = Some (ConnectionState_ctor ret) /\
   forall i, (length (connections p) <= i < Z.to_nat ret)%nat ->
             connections p' !! i = Some (ConnectionState_ctor (-1))).
Proof.
  intros H. pose proof (acceptConnection_slots _ _ _ _ H) as (Hc & H0 & Hlt & _ & Hslot).
  split; [exact Hc|]. revert H. unfold acceptConnection.
  destruct (Z.ltb_spec ret 0); [discriminate|].
  destruct (epoll_ctl_add _ _); [|discriminate].
  intros [= _ <-]. cbn [connections] in *. unfold pad_connections in *.
  split; [eexists; now rewrite <- app_assoc|].
  split; [exact Hlt|]. intros Hle.
  split; [rewrite !length_app, length_replicate; cbn; lia|].
  split; [now apply Hslot|].
  intros i Hi. rewrite <- app_assoc, lookup_app_r by lia.
  rewrite lookup_app_l by (rewrite length_replicate; lia).
  apply lookup_replicate_2. lia.
Qed.

Lemma accepted_handle_has_slot_witness :
  5 = 5 /\
  (exists appended,
      connections (one_connection (I := Sidescroll.DataInterpreter) example_scene)
      = (connections (initial_process (I := Sidescroll.DataInterpreter) 3 4
                        example_scene) ++ appended)%list) /\
  (Z.to_nat 5 < length (connections
                          (one_connection (I := Sidescroll.DataInterpreter)
                             example_scene)))%nat /\
  ((length (connections
              (initial_process (I := Sidescroll.DataInterpreter) 3 4 example_scene))
    <= Z.to_nat 5)%nat ->
   length (connections (one_connection (I := Sidescroll.DataInterpreter)
                          example_scene)) = S (Z.to_nat 5) /\
   connections (one_connection (I := Sidescroll.DataInterpreter) example_scene)
     !! Z.to_nat 5 = Some (ConnectionState_ctor 5) /\
   forall i,
     (length (connections
                (initial_process (I := Sidescroll.DataInterpreter) 3 4 example_scene))
      <= i < Z.to_nat 5)%nat ->
     connections (one_connection (I := Sidescroll.DataInterpreter) example_scene)
       !! i = Some (ConnectionState_ctor (-1))).
Proof.
  apply (accepted_handle_has_slot 5 5
           (initial_process (I := Sidescroll.DataInterpreter) 3 4 example_scene)
           (one_connection example_scene)).
  vm_compute. reflexivity.
Defined.

Lemma assign_slot_spec {I} (conns conns' : list (ConnectionState I)) f c :
  assign_slot conns f c = Ok conns' ->
  0 <= f /\ conns' = <[Z.to_nat f := c]> conns.
Proof.
  unfold assign_slot, slot. destruct (Z.ltb_spec f 0); [discriminate|].
  destruct (bool_decide _); [|discriminate]. intros [= <-]. auto.
Qed.

Lemma acceptInput_slot_count {I D : Type}
    (handleLine : ConnectionState I -> string -> Globals D ->
                  outcome (ConnectionState I * Globals D))
    (f len : Z) (buffer : string) (p p' : Process I D) :
  acceptInput handleLine f len buffer p = Ok p' ->
  length (connections p') = length (connections p).
Proof.
  unfold acceptInput. destruct (Z.ltb_spec len 0).
  - destruct (epoll_ctl_del (kernel p) 0); [|discriminate].
    destruct (assign_slot _ f _) as [conns| |] eqn:E; cbn; try discriminate.
    intros [= <-]. apply assign_slot_spec in E as [_ ->]. apply length_insert.
  - destruct (read_slot (connections p) f) as [c| |]; cbn; try discriminate.
    destruct (handleInput handleLine c _ (globals p)) as [[c1 g1]| |];
      cbn; try discriminate.
    destruct (assign_slot _ f c1) as [conns| |] eqn:E; cbn; try discriminate.
    intros [= <-]. apply assign_slot_spec in E as [_ ->]. apply length_insert.
Qed.

(** X13: when [acceptInput] returns, the table has the size it had and
    every slot other than that of the descriptor served holds what it
    held: input, or the end, of one connection does not reach the parser
    state of another.  With data read (a non-negative [len]) the
    descriptors and the interest list are unchanged as well. *)
Theorem acceptInput_touches_one_slot {I D : Type}
    (handleLine : ConnectionState I -> string -> Globals D ->
                  outcome (ConnectionState I * Globals D))
    (f len : Z) (buffer : string) (p p' : Process I D) :
  acceptInput handleLine f len buffer p = Ok p' ->
  length (connections p') = length (connections p) /\
  (forall i, i <> Z.to_nat f -> connections p' !! i = connections p !! i) /\
  (0 <= len -> kernel p' = kernel p).
Proof.
  unfold acceptInput. destruct (Z.ltb_spec len 0).
  - destruct (epoll_ctl_del (kernel p) 0); [|discriminate].
    destruct (assign_slot _ f _) as [conns| |] eqn:E; cbn; try discriminate.
    intros [= <-]. cbn [connections kernel].
    apply assign_slot_spec in E as [_ ->].
    split; [apply length_insert|]. split; [|lia].
    intros i Hi. apply list_lookup_insert_ne. congruence.
  - destruct (read_slot (connections p) f) as [c| |]; cbn; try discriminate.
    destruct (handleInput handleLine c _ (globals p)) as [[c1 g1]| |];
      cbn; try discriminate.
    destruct (assign_slot _ f c1) as [conns| |] eqn:E; cbn; try discriminate.
    intros [= <-]. cbn [connections kernel].
    apply assign_slot_spec in E as [_ ->].
    split; [apply length_insert|]. split; [|reflexivity].
    intros i Hi. apply list_lookup_insert_ne. congruence.
Qed.

Lemma acceptInput_touches_one_slot_witness :
  exists p',
    acceptInput (Sidescroll.handleLine Sidescroll.LeftFirst) 5 8
      ("ACTION" ++ crlf) (one_connection example_scene) = Ok p' /\
    connections p' !! 5%nat
      = Some {| fd := 5; buf := ""; state := HEADER; interpreter := None |} /\
    length (connections p') = length (connections (one_connection
               (I := Sidescroll.DataInterpreter) example_scene)) /\
    (forall i, i <> Z.to_nat 5 ->
               connections p' !! i
               = connections (one_connection (I := Sidescroll.DataInterpreter)
                                example_scene) !! i) /\
    (0 <= 8 -> kernel p' = kernel (one_connection (I := Sidescroll.DataInterpreter)
                                     example_scene)).
Proof.
  exists (in_headers example_scene).
  assert (H : acceptInput (Sidescroll.handleLine Sidescroll.LeftFirst) 5 8
                ("ACTION" ++ crlf) (one_connection example_scene)
              = Ok (in_headers example_scene)) by reflexivity.
  split; [exact H|]. split; [reflexivity|].
  apply (acceptInput_touches_one_slot _ 5 8 ("ACTION" ++ crlf)
           (one_connection example_scene) (in_headers example_scene) H).
Defined.

(** X14: input on a descriptor that has no slot, one at or beyond the size
    of the table or a negative one, is an access outside the table. *)
Theorem acceptInput_outside_table {I D : Type}
    (handleLine : ConnectionState I -> string -> Globals D ->
                  outcome (ConnectionState I * Globals D))
    (f len : Z) (buffer : string) (p : Process I D) :
  0 <= len ->
  f < 0 \/ (length (connections p) <= Z.to_nat f)%nat ->
  acceptInput handleLine f len buffer p = Undefined OutOfRange.
Proof.
  intros Hlen Hf. unfold acceptInput. destruct (Z.ltb_spec len 0); [lia|].
  unfold read_slot, slot. destruct (Z.ltb_spec f 0); [reflexivity|].
  destruct Hf as [Hf|Hf]; [lia|].
  unfold at_index. rewrite lookup_ge_None_2 by exact Hf. reflexivity.
Qed.

Lemma acceptInput_outside_table_witness :
  acceptInput (Sidescroll.handleLine Sidescroll.LeftFirst) 9 5 "hello"
    (one_connection example_scene) = Undefined OutOfRange.
Proof.
  apply (acceptInput_outside_table (Sidescroll.handleLine Sidescroll.LeftFirst)
           9 5 "hello" (one_connection example_scene)).
  - lia.
  - right. simpl. lia.
Defined.

(** [acceptConnection] succeeds exactly for a non-negative handle
    that the poller does not list yet.  It then returns the handle, lists
    it, and leaves the globals alone.  A negative result of [accept]
    throws "accept(2) failed", a handle already listed throws
    "epoll_ctl(2) failed"; the table is not touched in either case. *)
Theorem acceptConnection_outcome {I D : Type} (ret : Z) (p : Process I D) :
  (ret < 0 -> acceptConnection ret p = Throw (CString "accept(2) failed")) /\
  (0 <= ret -> ret ∈ interest (kernel p) ->
   acceptConnection ret p = Throw (CString "epoll_ctl(2) failed")) /\
  (0 <= ret -> ret ∉ interest (kernel p) ->
   exists p', acceptConnection ret p = Ok (ret, p') /\
              interest (kernel p') = {[ret]} ∪ interest (kernel p) /\
              open_fds (kernel p') = {[ret]} ∪ open_fds (kernel p) /\
              globals p' = globals p).
Proof.
  unfold acceptConnection, epoll_ctl_add, sys_accept. cbn [open_fds interest].
  split; [|split].
  - intros H. destruct (Z.ltb_spec ret 0); [reflexivity | lia].
  - intros H Hin. destruct (Z.ltb_spec ret 0); [lia|].
    rewrite (bool_decide_eq_true_2 (ret ∈ interest (kernel p))) by exact Hin.
    rewrite andb_false_r. reflexivity.
  - intros H Hin. destruct (Z.ltb_spec ret 0); [lia|].
    rewrite (bool_decide_eq_false_2 (ret ∈ interest (kernel p))) by exact Hin.
    rewrite bool_decide_eq_true_2 by set_solver.
    cbn. eexists. repeat split.
Qed.

Lemma acceptConnection_outcome_witness :
  acceptConnection (-1) (one_connection (I := Sidescroll.DataInterpreter) example_scene)
    = Throw (CString "accept(2) failed") /\
  acceptConnection 5 (one_connection (I := Sidescroll.DataInterpreter) example_scene)
    = Throw (CString "epoll_ctl(2) failed") /\
  exists p',
    acceptConnection 7 (one_connection (I := Sidescroll.DataInterpreter) example_scene)
      = Ok (7, p') /\
    interest (kernel p')
      = {[7]} ∪ interest (kernel (one_connection (I := Sidescroll.DataInterpreter)
                                    example_scene)) /\
    open_fds (kernel p')
      = {[7]} ∪ open_fds (kernel (one_connection (I := Sidescroll.DataInterpreter)
                                    example_scene)) /\
    globals p' = globals (one_connection (I := Sidescroll.DataInterpreter) example_scene).
Proof.
  split; [|split].
  - apply (proj1 (acceptConnection_outcome (-1) (one_connection example_scene))). lia.
  - apply (proj1 (proj2 (acceptConnection_outcome 5 (one_connection example_scene)))).
    + lia.
    + apply (bool_decide_unpack _). vm_compute. exact I.
  - apply (proj2 (proj2 (acceptConnection_outcome 7 (one_connection example_scene)))).
    + lia.
    + apply (bool_decide_unpack _). vm_compute. exact I.
Defined.

Lemma length_accept {I D : Type} ret (p p' : Process I D) con :
  acceptConnection ret p = Ok (con, p') ->
  (length (connections p) <= length (connections p'))%nat /\
  (Z.to_nat ret < length (connections p'))%nat.
Proof.
  unfold acceptConnection.
  destruct (Z.ltb_spec ret 0); [discriminate|].
  destruct (epoll_ctl_add _ _); [|discriminate].
  intros E. injection E as _ <-. cbn [connections].
  rewrite length_app, length_pad_connections. cbn. lia.
Qed.

(** X15: over the events of one wakeup the table never shrinks, and every
    handle accepted among them has a slot inside the table when the loop
    over the events is done. *)
Theorem dispatch_table_grows {I D : Type}
    (handleLine : ConnectionState I -> string -> Globals D ->
                  outcome (ConnectionState I * Globals D))
    (serverSocket : Z) :
  forall events (p p' : Process I D),
    dispatch handleLine serverSocket events p = Ok p' ->
    (length (connections p) <= length (connections p'))%nat /\
    (forall ev, In ev events -> ev_fd ev = serverSocket ->
                (Z.to_nat (ev_ret ev) < length (connections p'))%nat).
Proof.
  induction events as [|ev events IH]; intros p p' H.
  - injection H as <-. split; [lia | intros ev []].
  - cbn [dispatch] in H.
    destruct (Z.eqb_spec (ev_fd ev) serverSocket) as [Hs|Hs].
    + destruct (acceptConnection (ev_ret ev) p) as [[con p1]| |] eqn:E;
        cbn in H; try discriminate.
      apply length_accept in E as [Hle Hlt].
      apply IH in H as [Hle' Hin].
      split; [lia|]. intros ev' [<-|Hev] Hfd; [lia | now apply Hin].
    + destruct (acceptInput handleLine _ _ _ p) as [p1| |] eqn:E;
        cbn in H; try discriminate.
      apply acceptInput_slot_count in E.
      apply IH in H as [Hle' Hin].
      split; [lia|]. intros ev' [<-|Hev] Hfd; [contradiction | now apply Hin].
Qed.

Lemma dispatch_table_grows_witness :
  exists p',
    dispatch (Sidescroll.handleLine Sidescroll.LeftFirst) 3
      [ {| ev_fd := 3; ev_ret := 8; ev_buffer := "" |};
        {| ev_fd := 5; ev_ret := 8; ev_buffer := "ACTION" ++ crlf |} ]
      (one_connection example_scene) = Ok p' /\
    (length (connections (one_connection (I := Sidescroll.DataInterpreter)
                            example_scene))
     <= length (connections p'))%nat /\
    (forall ev,
        In ev [ {| ev_fd := 3; ev_ret := 8; ev_buffer := "" |};
                {| ev_fd := 5; ev_ret := 8; ev_buffer := "ACTION" ++ crlf |} ] ->
        ev_fd ev = 3 ->
        (Z.to_nat (ev_ret ev) < length (connections p'))%nat).
Proof.
  assert (H : { p' | dispatch (Sidescroll.handleLine Sidescroll.LeftFirst) 3
                       [ {| ev_fd := 3; ev_ret := 8; ev_buffer := "" |};
                         {| ev_fd := 5; ev_ret := 8; ev_buffer := "ACTION" ++ crlf |} ]
                       (one_connection example_scene) = Ok p' })
    by (eexists; vm_compute; reflexivity).
  destruct H as [p' H]. exists p'. split; [exact H|].
  apply (dispatch_table_grows (Sidescroll.handleLine Sidescroll.LeftFirst) 3
           [ {| ev_fd := 3; ev_ret := 8; ev_buffer := "" |};
             {| ev_fd := 5; ev_ret := 8; ev_buffer := "ACTION" ++ crlf |} ]
           (one_connection example_scene) p' H).
Defined.

(** X16: in the text display, [SDL_QUIT] takes effect at the end of the
    turn of the loop in which it is polled: that turn still renders if a
    frame is due and still serves all its ready events, and no later
    wakeup is served.  Up to there the loop runs as the loop of the
    coordinate display, which does not poll for it. *)
Theorem quit_ends_loop_after_the_turn {I D : Type}
    (handleLine : ConnectionState I -> string -> Globals D ->
                  outcome (ConnectionState I * Globals D))
    (renderFrame : Globals D -> outcome (Globals D)) (serverSocket : Z)
    (before : list Wakeup) (wk : Wakeup) (later : list Wakeup) :
  Forall (fun w => w_quit w = false) before ->
  w_quit wk = true ->
  forall st,
    event_loop handleLine renderFrame true serverSocket (before ++ wk :: later) st =
    event_loop handleLine renderFrame false serverSocket (before ++ [wk]) st.
Proof.
  intros Hb Hq. induction before as [|w before IH]; intros st.
  - cbn [app event_loop]. rewrite Hq.
    destruct (iteration _ _ _ _ _) as [st1| |]; reflexivity.
  - inversion Hb as [|? ? Hw Hrest]; subst.
    cbn [app event_loop]. rewrite Hw.
    destruct (iteration _ _ _ _ _) as [st1| |]; cbn; [|reflexivity..].
    apply IH. exact Hrest.
Qed.

Lemma quit_ends_loop_after_the_turn_witness :
  event_loop (Sidescroll.handleLine Sidescroll.LeftFirst) (fun g => Ok g) true 3
    ([ {| w_now := Some 100; w_quit := false; w_ready := Some [] |} ]
     ++ {| w_now := Some 200; w_quit := true;
           w_ready := Some [ {| ev_fd := 5; ev_ret := 8;
                                ev_buffer := "ACTION" ++ crlf |} ] |}
     :: [ {| w_now := Some 300; w_quit := false;
             w_ready := Some [ {| ev_fd := 5; ev_ret := 9;
                                  ev_buffer := "garbage" ++ crlf |} ] |} ])
    (0, one_connection example_scene) =
  event_loop (Sidescroll.handleLine Sidescroll.LeftFirst) (fun g => Ok g) false 3
    ([ {| w_now := Some 100; w_quit := false; w_ready := Some [] |} ]
     ++ [ {| w_now := Some 200; w_quit := true;
             w_ready := Some [ {| ev_fd := 5; ev_ret := 8;
                                  ev_buffer := "ACTION" ++ crlf |} ] |} ])
    (0, one_connection example_scene).
Proof.
  apply (quit_ends_loop_after_the_turn
           (Sidescroll.handleLine Sidescroll.LeftFirst) (fun g => Ok g) 3
           [ {| w_now := Some 100; w_quit := false; w_ready := Some [] |} ]
           {| w_now := Some 200; w_quit := true;
              w_ready := Some [ {| ev_fd := 5; ev_ret := 8;
                                   ev_buffer := "ACTION" ++ crlf |} ] |}
           [ {| w_now := Some 300; w_quit := false;
                w_ready := Some [ {| ev_fd := 5; ev_ret := 9;
                                     ev_buffer := "garbage" ++ crlf |} ] |} ]).
  - repeat constructor.
  - reflexivity.
Defined.

(** ** Whole sessions *)

Lemma find_app_none c s t :
  find c s = None -> find c t = None -> find c (s ++ t) = None.
Proof. intros Hs Ht. rewrite (find_app_missing _ _ _ Hs), Ht. reflexivity. Qed.

Lemma split_app_separator sep s t :
  find sep s = None -> split sep (s ++ String sep t) = s :: split sep t.
Proof.
  induction s as [|a s IH]; intros H.
  - change ("" ++ String sep t) with (String sep t). cbn [split].
    now rewrite Ascii.eqb_refl.
  - rewrite string_app_cons. cbn [split find] in *.
    destruct (Ascii.eqb a sep); [discriminate|].
    destruct (find sep s); [discriminate|]. now rewrite IH.
Qed.

Lemma side_content_type_line order ws c (g : Globals Sidescroll.Scene) :
  state c = HEADER -> all_space ws = true ->
  Sidescroll.handleLine order c ("Content-type:" ++ ws ++ "x-poserspace/text") g =
  Ok (set_interpreter c (Some Sidescroll.TextInterpreter),
      log "Header: Content-type => x-poserspace/text" g).
Proof.
  intros Hs Hws.
  destruct (header_line_parts "Content-type" ws "x-poserspace/text"
              eq_refl Hws eq_refl) as (H1 & H2 & H3 & H4).
  change ("Content-type" ++ ":" ++ ws ++ "x-poserspace/text")
    with ("Content-type:" ++ ws ++ "x-poserspace/text") in *.
  unfold Sidescroll.handleLine. rewrite Hs, H1, H2, H3, H4. reflexivity.
Qed.

Lemma geo_content_type_line {double} (atof : string -> double) ws c
    (g : Globals (Geo.GeoData double)) :
  state c = HEADER -> all_space ws = true ->
  Geo.handleLine atof c ("Content-type:" ++ ws ++ "x-poserspace/geo") g =
  Ok (set_interpreter c (Some Geo.GeoInterpreter),
      log "Header: Content-type => x-poserspace/geo" g).
Proof.
  intros Hs Hws.
  destruct (header_line_parts "Content-type" ws "x-poserspace/geo"
              eq_refl Hws eq_refl) as (H1 & H2 & H3 & H4).
  change ("Content-type" ++ ":" ++ ws ++ "x-poserspace/geo")
    with ("Content-type:" ++ ws ++ "x-poserspace/geo") in *.
  unfold Geo.handleLine. rewrite Hs, H1, H2, H3, H4. reflexivity.
Qed.

Lemma side_action_line order c line (g : Globals Sidescroll.Scene) :
  state c = ACTION -> Sidescroll.handleLine order c line g = Ok (set_state c HEADER, g).
Proof. intros Hs. unfold Sidescroll.handleLine. now rewrite Hs. Qed.

Lemma side_blank_line order c (g : Globals Sidescroll.Scene) :
  state c = HEADER -> Sidescroll.handleLine order c "" g = Ok (set_state c DATA, g).
Proof. intros Hs. unfold Sidescroll.handleLine. now rewrite Hs. Qed.

Lemma side_data_line order c line (g : Globals Sidescroll.Scene) :
  state c = DATA ->
  Sidescroll.handleLine order c line g =
  (g' ← Sidescroll.handleData order (interpreter c) (split TAB line) (log line g);
   Ok (c, g')).
Proof. intros Hs. unfold Sidescroll.handleLine. now rewrite Hs. Qed.

Lemma geo_action_line {double} (atof : string -> double) c line
    (g : Globals (Geo.GeoData double)) :
  state c = ACTION -> Geo.handleLine atof c line g = Ok (set_state c HEADER, g).
Proof. intros Hs. unfold Geo.handleLine. now rewrite Hs. Qed.

Lemma geo_blank_line {double} (atof : string -> double) c
    (g : Globals (Geo.GeoData double)) :
  state c = HEADER -> Geo.handleLine atof c "" g = Ok (set_state c DATA, g).
Proof. intros Hs. unfold Geo.handleLine. now rewrite Hs. Qed.

Lemma geo_record_line {double} (atof : string -> double) c v0 v1
    (g : Globals (Geo.GeoData double)) :
  state c = DATA -> interpreter c = Some Geo.GeoInterpreter ->
  find TAB v0 = None -> find TAB v1 = None ->
  Geo.handleLine atof c (v0 ++ String TAB v1) g =
  Ok (c, {| cerr := (cerr g ++ [(v0 ++ String TAB v1)%string;
                                ("Geo: " ++ v0 ++ "," ++ v1)%string])%list;
            shared := {| Geo.targetLat := atof (c_str v0);
                         Geo.targetLon := atof (c_str v1);
                         Geo.currentLat := Geo.currentLat (shared g);
                         Geo.currentLon := Geo.currentLon (shared g) |} |}).
Proof.
  intros Hs Hi H0 H1. unfold Geo.handleLine. rewrite Hs, Hi.
  rewrite (split_app_separator _ _ _ H0), (split_without_separator _ _ H1).
  cbn. unfold set_shared, log, Geo.set_targetLon, Geo.set_targetLat. cbn.
  now rewrite <- app_assoc.
Qed.

(** X17: a whole session of the text display.  A new connection that
    receives an action line (any text), the header
    [Content-type: x-poserspace/text] (any white space behind the colon), a
    blank line and one line of text without a tab, all ended by CR LF,
    ends in the DATA state bound to the Text interpreter, with an empty
    buffer and exactly one item appended, whose text is that line. *)
Theorem text_session_one_item order (f : Z) (action ws text : string)
    (g : Globals Sidescroll.Scene) :
  find LF action = None ->
  all_space ws = true -> find LF ws = None ->
  text <> "" -> find TAB text = None -> find LF text = None ->
  rand_in_range (shared g) ->
  Sidescroll.fonts (shared g) = Sidescroll.main_fonts ->
  exists l d',
    handleInput (Sidescroll.handleLine order) (ConnectionState_ctor f)
      (wire [action; "Content-type:" ++ ws ++ "x-poserspace/text"; ""; text]) g
    = Ok ({| fd := f; buf := ""; state := DATA;
             interpreter := Some Sidescroll.TextInterpreter |},
          set_shared (log text (log "Header: Content-type => x-poserspace/text" g)) d') /\
    Sidescroll.lines d' = (Sidescroll.lines (shared g) ++ [l])%list /\
    Sidescroll.content l = text.
Proof.
  intros Ha Hws Hwl Hne Htab Hlf Hr Hf.
  set (g1 := log "Header: Content-type => x-poserspace/text" g).
  destruct (text_record_item order text [] (log text g1) Hne Hr Hf)
    as (m & l & d' & H & Hl & _ & _ & _ & Hc & _).
  exists l, d'. split; [|split; assumption].
  rewrite <- (string_app_empty_r (wire _)).
  rewrite (handleInput_wire _ (side_handleLine_buf order)); [|reflexivity|].
  2:{ repeat constructor; try assumption.
      apply (find_app_none LF "Content-type:"); [reflexivity|].
      apply find_app_none; [assumption | reflexivity]. }
  cbn [handleLines].
  rewrite side_action_line by reflexivity. cbn [mbind outcome_bind].
  rewrite side_content_type_line by (reflexivity || assumption).
  cbn [mbind outcome_bind]. fold g1.
  rewrite side_blank_line by reflexivity. cbn [mbind outcome_bind].
  rewrite side_data_line by reflexivity. cbn [interpreter set_state set_interpreter].
  rewrite (split_without_separator _ _ Htab). cbn [Sidescroll.handleData].
  rewrite H. cbn [mbind outcome_bind].
  apply handleInput_empty. reflexivity.
Qed.

Lemma text_session_one_item_witness :
  exists l d',
    handleInput (Sidescroll.handleLine Sidescroll.LeftFirst) (ConnectionState_ctor 5)
      (wire ["GET /feed"; "Content-type:" ++ (" " ++ tab) ++ "x-poserspace/text"; "";
             "hello world"]) example_scene
    = Ok ({| fd := 5; buf := ""; state := DATA;
             interpreter := Some Sidescroll.TextInterpreter |},
          set_shared (log "hello world"
                        (log "Header: Content-type => x-poserspace/text" example_scene))
            d') /\
    Sidescroll.lines d' = (Sidescroll.lines (shared example_scene) ++ [l])%list /\
    Sidescroll.content l = "hello world".
Proof.
  assert (Hne : "hello world" <> "") by discriminate.
  assert (Hr : rand_in_range (shared example_scene)).
  { intros n. unfold RAND_MAX. simpl. lia. }
  apply (text_session_one_item Sidescroll.LeftFirst 5 "GET /feed" (" " ++ tab)
           "hello world" example_scene eq_refl eq_refl eq_refl Hne eq_refl eq_refl
           Hr eq_refl).
Defined.

(** X18: a whole session of the coordinate display.  A new connection
    that receives an action line, the header [Content-type:
    x-poserspace/geo], a blank line and a record of two fields, all ended
    by CR LF, ends in the DATA state bound to the Geo interpreter with an
    empty buffer; the target is [atof] of the two fields, the current
    position is untouched, and [std::cerr] has the header, the record and
    the interpreter's message. *)
Theorem geo_session_sets_target {double} (atof : string -> double) (f : Z)
    (action ws lat lon : string) (g : Globals (Geo.GeoData double)) :
  find LF action = None ->
  all_space ws = true -> find LF ws = None ->
  find TAB lat = None -> find LF lat = None ->
  find TAB lon = None -> find LF lon = None ->
  handleInput (Geo.handleLine atof) (ConnectionState_ctor f)
    (wire [action; "Content-type:" ++ ws ++ "x-poserspace/geo"; "";
           lat ++ tab ++ lon]) g
  = Ok ({| fd := f; buf := ""; state := DATA; interpreter := Some Geo.GeoInterpreter |},
        {| cerr := (cerr g ++ ["Header: Content-type => x-poserspace/geo";
                               (lat ++ tab ++ lon)%string;
                               ("Geo: " ++ lat ++ "," ++ lon)%string])%list;
           shared := {| Geo.targetLat := atof (c_str lat);
                        Geo.targetLon := atof (c_str lon);
                        Geo.currentLat := Geo.currentLat (shared g);
                        Geo.currentLon := Geo.currentLon (shared g) |} |}).
Proof.
  intros Ha Hws Hwl Htlat Hllat Htlon Hllon.
  rewrite <- (string_app_empty_r (wire _)).
  rewrite (handleInput_wire _ (geo_handleLine_buf atof)); [|reflexivity|].
  2:{ repeat constructor; try assumption.
      - apply (find_app_none LF "Content-type:"); [reflexivity|].
        apply find_app_none; [assumption | reflexivity].
      - apply find_app_none; [assumption|].
        apply (find_app_none LF tab); [reflexivity | assumption]. }
  cbn [handleLines].
  rewrite geo_action_line by reflexivity. cbn [mbind outcome_bind].
  rewrite geo_content_type_line by (reflexivity || assumption).
  cbn [mbind outcome_bind].
  rewrite geo_blank_line by reflexivity. cbn [mbind outcome_bind].
  change (lat ++ tab ++ lon) with (lat ++ String TAB lon).
  rewrite geo_record_line by (reflexivity || assumption).
  cbn [mbind outcome_bind]. rewrite handleInput_empty by reflexivity.
  cbn [cerr log shared]. rewrite <- !app_assoc. reflexivity.
Qed.

Lemma geo_session_sets_target_witness :
  handleInput (Geo.handleLine atof_decimal) (ConnectionState_ctor 5)
    (wire ["ACTION"; "Content-type:" ++ " " ++ "x-poserspace/geo"; "";
           "12.5" ++ tab ++ "-3.25"])
    {| cerr := []; shared := Geo.mkGeoData 0%Q 0%Q 1%Q 2%Q |}
  = Ok ({| fd := 5; buf := ""; state := DATA; interpreter := Some Geo.GeoInterpreter |},
        {| cerr := ["Header: Content-type => x-poserspace/geo";
                    ("12.5" ++ tab ++ "-3.25")%string;
                    "Geo: 12.5,-3.25"];
           shared := Geo.mkGeoData (25 # 2)%Q (-13 # 4)%Q 1%Q 2%Q |}).
Proof.
  apply (geo_session_sets_target atof_decimal 5 "ACTION" " " "12.5" "-3.25"
           {| cerr := []; shared := Geo.mkGeoData 0%Q 0%Q 1%Q 2%Q |}
           eq_refl eq_refl eq_refl eq_refl eq_refl eq_refl eq_refl).
Defined.

(** ** Start-up and the clock *)

Lemma open_fonts_all opened sizes : forall fonts,
  forallb (fun i => opened (Z.of_nat i)) sizes = true ->
  open_fonts opened sizes fonts =
  Ok (fonts ++ map (fun i => Some (Sidescroll.OpenFont (Z.of_nat i))) sizes)%list.
Proof.
  induction sizes as [|i sizes IH]; intros fonts H; cbn [open_fonts map].
  - now rewrite app_nil_r.
  - cbn [forallb] in H. apply andb_true_iff in H as [Hi H].
    rewrite Hi, IH by exact H. now rewrite <- app_assoc.
Qed.

Lemma open_fonts_some_missing opened sizes : forall fonts,
  forallb (fun i => opened (Z.of_nat i)) sizes = false ->
  open_fonts opened sizes fonts = Throw (CString "TTF_OpenFont failed").
Proof.
  induction sizes as [|i sizes IH]; intros fonts H; cbn [open_fonts forallb] in *.
  - discriminate.
  - destruct (opened (Z.of_nat i)); [apply IH; exact H | reflexivity].
Qed.

(** With every set-up call answered well, the common part of the two
    [main]s enters the loop in [initial_process]. *)
Lemma serve_enters_loop {I D : Type}
    (handleLine : ConnectionState I -> string -> Globals D ->
                  outcome (ConnectionState I * Globals D))
    renderFrame polls_quit b (g : Globals D) wakeups t :
  0 <= socket_ret (setup b) -> 0 <= setsockopt_ret (setup b) ->
  0 <= bind_ret (setup b) -> 0 <= listen_ret (setup b) ->
  0 <= epoll_create_ret (setup b) -> boot_now b = Some t ->
  serve handleLine renderFrame polls_quit b g wakeups =
  event_loop handleLine renderFrame polls_quit (socket_ret (setup b)) wakeups
    ((t + FRAMEDELAY) mod 2 ^ 64,
     initial_process (socket_ret (setup b)) (epoll_create_ret (setup b)) g).
Proof.
  intros H1 H2 H3 H4 H5 Ht. unfold serve, prepareSocket, prepareEpoll.
  repeat match goal with
         | |- context [?a <? 0] => destruct (Z.ltb_spec a 0); [lia|]
         end.
  cbn [mbind outcome_bind open_fds interest]. unfold epoll_ctl_add.
  cbn [open_fds interest].
  rewrite bool_decide_eq_true_2 by (clear; set_solver).
  rewrite bool_decide_eq_false_2 by (clear; set_solver).
  cbn [andb negb mbind outcome_bind]. rewrite Ht. cbn [mbind outcome_bind].
  unfold initial_process. do 4 f_equal; rewrite (right_id_L ∅ (∪)).
  - apply (comm_L (∪)).
  - reflexivity.
Qed.

Lemma serve_fails {I D : Type}
    (handleLine : ConnectionState I -> string -> Globals D ->
                  outcome (ConnectionState I * Globals D))
    renderFrame polls_quit b (g : Globals D) wakeups :
  (0 <=? socket_ret (setup b)) && (0 <=? setsockopt_ret (setup b))
  && (0 <=? bind_ret (setup b)) && (0 <=? listen_ret (setup b))
  && (0 <=? epoll_create_ret (setup b))
  && match boot_now b with Some _ => true | None => false end = false ->
  exists what,
    serve handleLine renderFrame polls_quit b g wakeups = Throw (CString what).
Proof.
  intros H. unfold serve, prepareSocket, prepareEpoll.
  destruct (Z.ltb_spec (socket_ret (setup b)) 0); [eexists; reflexivity|].
  destruct (Z.ltb_spec (setsockopt_ret (setup b)) 0); [eexists; reflexivity|].
  destruct (Z.ltb_spec (bind_ret (setup b)) 0); [eexists; reflexivity|].
  destruct (Z.ltb_spec (listen_ret (setup b)) 0); [eexists; reflexivity|].
  cbn [mbind outcome_bind].
  destruct (Z.ltb_spec (epoll_create_ret (setup b)) 0); [eexists; reflexivity|].
  destruct (epoll_ctl_add _ _); [|eexists; reflexivity].
  cbn [mbind outcome_bind].
  destruct (boot_now b); [|eexists; reflexivity].
  exfalso. revert H.
  repeat match goal with
         | |- context [0 <=? ?a] => destruct (Z.leb_spec 0 a); [|lia]
         end.
  discriminate.
Qed.

(** X19: the start of the text display.  When every set-up call succeeds,
    [main] enters its loop with an empty connection table, the listening
    socket open and registered with the poller, the epoll descriptor open,
    no item on display, the first frame due one frame delay after the
    first clock reading, and the font table of 32 entries that the size
    policy relies on.  When any of them fails, [main] ends with a
    [const char *] exception and returns 1, whatever the wakeups would
    have been: no connection is ever accepted. *)
Theorem sidescroll_start order renderFrame (b : Boot) (rand_values : nat -> Z)
    (wakeups : list Wakeup) :
  (boot_ok b = true ->
   exists t,
     boot_now b = Some t /\
     sidescroll_main_block order renderFrame b rand_values wakeups =
     event_loop (Sidescroll.handleLine order) renderFrame true
       (socket_ret (setup b)) wakeups
       ((t + FRAMEDELAY) mod 2 ^ 64,
        initial_process (socket_ret (setup b)) (epoll_create_ret (setup b))
          {| cerr := [];
             shared := {| Sidescroll.lines := [];
                          Sidescroll.fonts := Sidescroll.main_fonts;
                          Sidescroll.rand_values := rand_values;
                          Sidescroll.rand_calls := 0 |} |})) /\
  (boot_ok b = false ->
   (exists what,
       sidescroll_main_block order renderFrame b rand_values wakeups
       = Throw (CString what)) /\
   sidescroll_main order renderFrame b rand_values wakeups = Some 1).
Proof.
  unfold boot_ok, sidescroll_main, sidescroll_main_block. split.
  - intros H.
    apply andb_true_iff in H as [H Hnow]. apply andb_true_iff in H as [H Hep].
    apply andb_true_iff in H as [H Hli]. apply andb_true_iff in H as [H Hbi].
    apply andb_true_iff in H as [H Hso]. apply andb_true_iff in H as [H Hsk].
    apply andb_true_iff in H as [H Hfonts]. apply andb_true_iff in H as [H Httf].
    apply Z.leb_le in Hep, Hli, Hbi, Hso, Hsk, Httf.
    destruct (boot_now b) as [t|] eqn:Ht; [|discriminate]. exists t.
    split; [reflexivity|].
    rewrite H. cbn [negb].
    destruct (Z.ltb_spec (ttf_init_ret b) 0); [lia|].
    rewrite open_fonts_all by assumption. cbn [mbind outcome_bind].
    apply serve_enters_loop; try lia. exact Ht.
  - intros H.
    assert (exists what,
               (if negb (sdl_init_ret b =? 0) then Throw (CString "SDL init failed")
                else if ttf_init_ret b <? 0 then Throw (CString "TTF init failed")
                else
                  fonts ← open_fonts (font_opened b) (seq 1 31) [None];
                  serve (Sidescroll.handleLine order) renderFrame true b
                    {| cerr := [];
                       shared := {| Sidescroll.lines := []; Sidescroll.fonts := fonts;
                                    Sidescroll.rand_values := rand_values;
                                    Sidescroll.rand_calls := 0 |} |} wakeups)
               = Throw (CString what)) as [what Hw].
    { destruct (sdl_init_ret b =? 0); [|eexists; reflexivity]. cbn [negb andb] in *.
      destruct (Z.ltb_spec (ttf_init_ret b) 0); [eexists; reflexivity|].
      destruct (Z.leb_spec 0 (ttf_init_ret b)); [|lia]. cbn [andb] in H.
      destruct (forallb _ (seq 1 31)) eqn:Hfonts.
      - rewrite open_fonts_all by exact Hfonts. cbn [mbind outcome_bind andb] in *.
        apply serve_fails. exact H.
      - rewrite open_fonts_some_missing by exact Hfonts. eexists; reflexivity. }
    rewrite Hw. split; [eexists; reflexivity | reflexivity].
Qed.

Lemma sidescroll_start_witness :
  exists t,
    boot_now example_boot = Some t /\
    sidescroll_main_block Sidescroll.LeftFirst (fun g => Ok g) example_boot
      (fun _ => 7) [] =
    event_loop (Sidescroll.handleLine Sidescroll.LeftFirst) (fun g => Ok g) true
      (socket_ret (setup example_boot)) []
      ((t + FRAMEDELAY) mod 2 ^ 64,
       initial_process (socket_ret (setup example_boot))
         (epoll_create_ret (setup example_boot))
         {| cerr := [];
            shared := {| Sidescroll.lines := [];
                         Sidescroll.fonts := Sidescroll.main_fonts;
                         Sidescroll.rand_values := fun _ => 7;
                         Sidescroll.rand_calls := 0 |} |}).
Proof.
  apply (proj1 (sidescroll_start Sidescroll.LeftFirst (fun g => Ok g) example_boot
                  (fun _ => 7) [])).
  reflexivity.
Defined.

Lemma event_loop_first_dispatch_throws {I D : Type}
    (handleLine : ConnectionState I -> string -> Globals D ->
                  outcome (ConnectionState I * Globals D))
    (renderFrame : Globals D -> outcome (Globals D))
    polls_quit serverSocket t quit events wakeups nextFrameAt (p : Process I D) x :
  (forall g, exists g', renderFrame g = Ok g') ->
  (forall g, dispatch handleLine serverSocket events
               {| connections := connections p; kernel := kernel p; globals := g |}
             = Throw x) ->
  event_loop handleLine renderFrame polls_quit serverSocket
    ({| w_now := Some t; w_quit := quit; w_ready := Some events |} :: wakeups)
    (nextFrameAt, p)
  = Throw x.
Proof.
  intros Hrender Hd. cbn [event_loop iteration w_now w_ready mbind outcome_bind].
  destruct (nextFrameAt <? t).
  - destruct (Hrender (globals p)) as [g' ->]. cbn [mbind outcome_bind].
    rewrite Hd. reflexivity.
  - cbn [mbind outcome_bind]. destruct p as [cs k g]. cbn [connections kernel] in Hd.
    rewrite Hd. reflexivity.
Qed.

Section FirstConnection.
Context {I D : Type}.
Variable handleLine :
ConnectionState I -> string -> Globals D -> outcome (ConnectionState I * Globals D).
Hypothesis handleLine_buf : buf_independent handleLine.
Hypothesis Haction : forall c line g,
state c = ACTION -> handleLine c line g = Ok (set_state c HEADER, g).
Hypothesis Hthrow : forall c line g,
state c = HEADER -> line <> "" -> find COLON line = None ->
handleLine c line g = Throw (StdString ("invalid header: " ++ line)).

(** The first connection of a process sends an action line and a header
  line without a colon. *)
Lemma first_connection_protocol_error
  (renderFrame : Globals D -> outcome (Globals D)) polls_quit
  serverSocket poll (g : Globals D) handle action line more events wakeups
  nextFrameAt t quit :
(forall g, exists g', renderFrame g = Ok g') ->
0 <= handle -> handle <> serverSocket ->
find LF action = None ->
line <> "" -> find COLON line = None -> find LF line = None ->
event_loop handleLine renderFrame polls_quit serverSocket
  ({| w_now := Some t; w_quit := quit;
      w_ready := Some ({| ev_fd := serverSocket; ev_ret := handle; ev_buffer := "" |}
                       :: {| ev_fd := handle;
                             ev_ret := Z.of_nat (String.length
                                                   (wire [action; line] ++ more));
                             ev_buffer := wire [action; line] ++ more |}
                       :: events) |} :: wakeups)
  (nextFrameAt, initial_process serverSocket poll g)
= Throw (StdString ("invalid header: " ++ line)).
Proof.
intros Hrender Hh Hne Ha Hl Hcolon Hlf.
apply event_loop_first_dispatch_throws; [exact Hrender|].
intros g'. cbn [dispatch ev_fd ev_ret ev_buffer initial_process connections kernel].
rewrite Z.eqb_refl.
unfold acceptConnection, epoll_ctl_add, sys_accept.
cbn [kernel open_fds interest connections globals].
destruct (Z.ltb_spec handle 0); [lia|].
rewrite bool_decide_eq_true_2
  by (apply elem_of_union_l, elem_of_singleton; reflexivity).
rewrite bool_decide_eq_false_2
  by (intros Hin; apply elem_of_singleton in Hin; contradiction).
cbn [andb negb mbind outcome_bind].
destruct (Z.eqb_spec handle serverSocket); [contradiction|].
erewrite acceptInput_throws; [reflexivity | exact Hh | lia | |].
- cbn [connections]. unfold pad_connections. cbn [app length].
  rewrite Nat.sub_0_r.
  rewrite lookup_app_r by (rewrite length_replicate; lia).
  rewrite length_replicate, Nat.sub_diag. reflexivity.
- cbn [globals]. rewrite Nat2Z.id. unfold range at 1.
  rewrite Nat.sub_0_r, substring_all.
  rewrite (handleInput_wire _ handleLine_buf) by (repeat constructor; assumption).
  cbn [handleLines].
  rewrite Haction by reflexivity. cbn [mbind outcome_bind].
  rewrite Hthrow by (reflexivity || assumption). reflexivity.
Qed.
End FirstConnection.

(** X20: a header line without a colon ends either program with exit
    status 0.  After a start in which every call succeeded, a first
    connection that sends an action line and then such a line makes the
    loop throw the [std::string]; the [catch] clause for it prints and has
    no [return], so [main] runs off its end, whereas every
    [const char *] exception returns 1. *)
Theorem protocol_error_exit_status :
  (forall order renderFrame b rand_values handle action line more events wakeups t quit,
      boot_ok b = true ->
      (forall g, exists g', renderFrame g = Ok g') ->
      0 <= handle -> handle <> socket_ret (setup b) ->
      find LF action = None ->
      line <> "" -> find COLON line = None -> find LF line = None ->
      sidescroll_main order renderFrame b rand_values
        ({| w_now := Some t; w_quit := quit;
            w_ready := Some ({| ev_fd := socket_ret (setup b); ev_ret := handle;
                                ev_buffer := "" |}
                             :: {| ev_fd := handle;
                                   ev_ret := Z.of_nat (String.length
                                                         (wire [action; line] ++ more));
                                   ev_buffer := wire [action; line] ++ more |}
                             :: events) |} :: wakeups)
      = Some 0) /\
  (forall double (atof : string -> double) renderFrame zero lat0 lon0 b
          handle action line more events wakeups t quit,
      boot_ok b = true ->
      (forall g, exists g', renderFrame g = Ok g') ->
      0 <= handle -> handle <> socket_ret (setup b) ->
      find LF action = None ->
      line <> "" -> find COLON line = None -> find LF line = None ->
      geo_main atof renderFrame zero lat0 lon0 b
        ({| w_now := Some t; w_quit := quit;
            w_ready := Some ({| ev_fd := socket_ret (setup b); ev_ret := handle;
                                ev_buffer := "" |}
                             :: {| ev_fd := handle;
                                   ev_ret := Z.of_nat (String.length
                                                         (wire [action; line] ++ more));
                                   ev_buffer := wire [action; line] ++ more |}
                             :: events) |} :: wakeups)
      = Some 0).
Proof.
  split.
  - intros order renderFrame b rand_values handle action line more events wakeups
           t quit Hb Hrender Hh Hne Ha Hl Hcolon Hlf.
    unfold sidescroll_main, sidescroll_main_block.
    unfold boot_ok in Hb.
    apply andb_true_iff in Hb as [Hb Hnow]. apply andb_true_iff in Hb as [Hb Hep].
    apply andb_true_iff in Hb as [Hb Hli]. apply andb_true_iff in Hb as [Hb Hbi].
    apply andb_true_iff in Hb as [Hb Hso]. apply andb_true_iff in Hb as [Hb Hsk].
    apply andb_true_iff in Hb as [Hb Hfonts]. apply andb_true_iff in Hb as [Hb Httf].
    apply Z.leb_le in Hep, Hli, Hbi, Hso, Hsk, Httf.
    destruct (boot_now b) as [t0|] eqn:Ht; [|discriminate].
    rewrite Hb. cbn [negb]. destruct (Z.ltb_spec (ttf_init_ret b) 0); [lia|].
    rewrite open_fonts_all by assumption. cbn [mbind outcome_bind].
    rewrite (serve_enters_loop _ _ _ _ _ _ t0) by assumption.
    rewrite first_connection_protocol_error; try assumption; try reflexivity.
    + apply side_handleLine_buf.
    + intros c l g Hs. unfold Sidescroll.handleLine. now rewrite Hs.
    + intros c l g Hs Hl' Hc. unfold Sidescroll.handleLine. rewrite Hs, Hc.
      destruct (String.eqb_spec l ""); [contradiction | reflexivity].
  - intros double atof renderFrame zero lat0 lon0 b handle action line more events
           wakeups t quit Hb Hrender Hh Hne Ha Hl Hcolon Hlf.
    unfold geo_main, geo_main_block.
    unfold boot_ok in Hb.
    apply andb_true_iff in Hb as [Hb Hnow]. apply andb_true_iff in Hb as [Hb Hep].
    apply andb_true_iff in Hb as [Hb Hli]. apply andb_true_iff in Hb as [Hb Hbi].
    apply andb_true_iff in Hb as [Hb Hso]. apply andb_true_iff in Hb as [Hb Hsk].
    apply andb_true_iff in Hb as [Hb Hfonts]. apply andb_true_iff in Hb as [Hb Httf].
    apply Z.leb_le in Hep, Hli, Hbi, Hso, Hsk, Httf.
    destruct (boot_now b) as [t0|] eqn:Ht; [|discriminate].
    rewrite Hb. cbn [negb].
    rewrite (serve_enters_loop _ _ _ _ _ _ t0) by assumption.
    rewrite first_connection_protocol_error; try assumption; try reflexivity.
    + apply geo_handleLine_buf.
    + intros c l g Hs. unfold Geo.handleLine. now rewrite Hs.
    + intros c l g Hs Hl' Hc. unfold Geo.handleLine. rewrite Hs, Hc.
      destruct (String.eqb_spec l ""); [contradiction | reflexivity].
Qed.

Lemma protocol_error_exit_status_witness :
  sidescroll_main Sidescroll.LeftFirst (fun g => Ok g) example_boot (fun _ => 7)
    ({| w_now := Some 2000; w_quit := false;
        w_ready := Some ({| ev_fd := socket_ret (setup example_boot); ev_ret := 5;
                            ev_buffer := "" |}
                         :: {| ev_fd := 5;
                               ev_ret := Z.of_nat (String.length
                                           (wire ["ACTION"; "garbage"] ++ "x"));
                               ev_buffer := wire ["ACTION"; "garbage"] ++ "x" |}
                         :: []) |} :: [])
  = Some 0.
Proof.
  apply (proj1 protocol_error_exit_status Sidescroll.LeftFirst (fun g => Ok g)
           example_boot (fun _ => 7) 5 "ACTION" "garbage" "x" [] [] 2000 false).
  - reflexivity.
  - intros g. exists g. reflexivity.
  - lia.
  - simpl. lia.
  - reflexivity.
  - discriminate.
  - reflexivity.
  - reflexivity.
Defined.

Lemma iteration_deadline {I D : Type}
    (handleLine : ConnectionState I -> string -> Globals D ->
                  outcome (ConnectionState I * Globals D))
    (renderFrame : Globals D -> outcome (Globals D)) serverSocket wk
    nextFrameAt (p : Process I D) nextFrameAt' p' t :
  iteration handleLine renderFrame serverSocket wk (nextFrameAt, p)
    = Ok (nextFrameAt', p') ->
  w_now wk = Some t -> 0 <= t < 2 ^ 64 - FRAMEDELAY ->
  t <= nextFrameAt' /\
  (nextFrameAt <= t + FRAMEDELAY -> nextFrameAt' <= t + FRAMEDELAY).
Proof.
  intros H Ht Hr. unfold iteration in H. rewrite Ht in H.
  cbn [mbind outcome_bind] in H. unfold FRAMEDELAY in *.
  destruct (Z.ltb_spec nextFrameAt t).
  - destruct (renderFrame (globals p)); cbn [mbind outcome_bind] in H;
      try discriminate.
    destruct (w_ready wk); cbn [mbind outcome_bind] in H; try discriminate.
    destruct (dispatch _ _ _ _); cbn [mbind outcome_bind] in H; try discriminate.
    injection H as <- _. rewrite Z.mod_small by lia. lia.
  - cbn [mbind outcome_bind] in H.
    destruct (w_ready wk); cbn [mbind outcome_bind] in H; try discriminate.
    destruct (dispatch _ _ _ _); cbn [mbind outcome_bind] in H; try discriminate.
    injection H as <- _. lia.
Qed.

(** X21: frame pacing.  With a clock that does not run backwards, the
    deadline of the next frame is never behind the clock reading of the
    turn just served and never more than one frame delay (25000
    microseconds) ahead of it, so the time the loop asks [epoll_wait] to
    wait lies between zero and one frame delay.  This holds after every
    number of wakeups, whatever the events, as long as the loop goes on. *)
Theorem frame_deadline_follows_clock {I D : Type}
    (handleLine : ConnectionState I -> string -> Globals D ->
                  outcome (ConnectionState I * Globals D))
    (renderFrame : Globals D -> outcome (Globals D))
    (polls_quit : bool) (serverSocket : Z) :
  forall wakeups t0 nextFrameAt (p : Process I D) nextFrameAt' p',
    0 <= t0 ->
    clocks_from t0 wakeups ->
    t0 <= nextFrameAt <= t0 + FRAMEDELAY ->
    Forall (fun wk => polls_quit && w_quit wk = false) wakeups ->
    event_loop handleLine renderFrame polls_quit serverSocket wakeups (nextFrameAt, p)
      = Ok (nextFrameAt', p') ->
    last_clock t0 wakeups <= nextFrameAt' <= last_clock t0 wakeups + FRAMEDELAY.
Proof.
  induction wakeups as [|wk wakeups IH];
    intros t0 nf p nf' p' H0 Hc Hnf Hq H.
  - injection H as <- _. exact Hnf.
  - destruct Hc as (t & Ht & Hr & Hc).
    inversion Hq as [|? ? Hq1 Hq2]; subst.
    cbn [event_loop] in H. rewrite Hq1 in H.
    destruct (iteration _ _ _ wk (nf, p)) as [[nf1 p1]| |] eqn:E;
      cbn [mbind outcome_bind] in H; try discriminate.
    destruct (iteration_deadline _ _ _ _ _ _ _ _ t E Ht ltac:(lia)) as [Hlo Hhi].
    cbn [last_clock]. rewrite Ht.
    apply (IH t nf1 p1 nf' p'); [lia | exact Hc | | exact Hq2 | exact H].
    split; [exact Hlo | apply Hhi; lia].
Qed.

Lemma frame_deadline_follows_clock_witness :
  last_clock 1000
    [ {| w_now := Some 2000; w_quit := false; w_ready := Some [] |};
      {| w_now := Some 30000; w_quit := false; w_ready := Some [] |};
      {| w_now := Some 40000; w_quit := false; w_ready := Some [] |} ]
  <= 55000 <=
  last_clock 1000
    [ {| w_now := Some 2000; w_quit := false; w_ready := Some [] |};
      {| w_now := Some 30000; w_quit := false; w_ready := Some [] |};
      {| w_now := Some 40000; w_quit := false; w_ready := Some [] |} ]
  + FRAMEDELAY.
Proof.
  apply (frame_deadline_follows_clock
           (Sidescroll.handleLine Sidescroll.LeftFirst) (fun g => Ok g) false 3
           [ {| w_now := Some 2000; w_quit := false; w_ready := Some [] |};
             {| w_now := Some 30000; w_quit := false; w_ready := Some [] |};
             {| w_now := Some 40000; w_quit := false; w_ready := Some [] |} ]
           1000 26000 (one_connection example_scene)
           55000 (one_connection example_scene)).
  - lia.
  - simpl. unfold FRAMEDELAY.
    repeat (eexists; split; [reflexivity|]; split; [lia|]). exact I.
  - unfold FRAMEDELAY. lia.
  - repeat constructor.
  - reflexivity.
Defined.

(** X22: for a normalized [timeval], seconds from 0 below 2^44 and
    microseconds from 0 below one million, [now] is the number of
    microseconds exactly, without wrap-around, so that time stamps are
    ordered as the times they were taken at; and [now] fails only when
    [gettimeofday] does. *)
Theorem now_counts_microseconds (ret sec usec ret' sec' usec' : Z) :
  0 <= ret -> 0 <= ret' ->
  0 <= sec < 2 ^ 44 -> 0 <= usec < 1000000 ->
  0 <= sec' < 2 ^ 44 -> 0 <= usec' < 1000000 ->
  now ret sec usec = Some (sec * 1000000 + usec) /\
  now ret' sec' usec' = Some (sec' * 1000000 + usec') /\
  (sec * 1000000 + usec < sec' * 1000000 + usec'
   <-> sec < sec' \/ (sec = sec' /\ usec < usec')).
Proof.
  intros Hr Hr' Hs Hu Hs' Hu'. unfold now.
  destruct (Z.ltb_spec ret 0); [lia|]. destruct (Z.ltb_spec ret' 0); [lia|].
  assert (H44 : 2 ^ 44 * 1000000 < 2 ^ 64) by reflexivity.
  rewrite (Z.mod_small sec), (Z.mod_small sec') by lia.
  rewrite !Z.mod_small by nia.
  repeat split; try nia.
Qed.

Lemma now_counts_microseconds_witness :
  now 0 1700000000 999999 = Some (1700000000 * 1000000 + 999999) /\
  now 0 1700000001 0 = Some (1700000001 * 1000000 + 0) /\
  (1700000000 * 1000000 + 999999 < 1700000001 * 1000000 + 0
   <-> 1700000000 < 1700000001 \/ (1700000000 = 1700000001 /\ 999999 < 0)).
Proof.
  apply (now_counts_microseconds 0 1700000000 999999 0 1700000001 0); lia.
Defined.
